(** * pkg/services/encryption/service: the legacy encryption service

    A shallow embedding of [service.go] and of the parts of Go's standard
    library it calls ([encoding/base64], [bytes.Index], [copy]), followed by
    the properties of the wire format and of the dispatch logic.

    Conventions.
    - [[]byte] is [list byte]; a nil slice is the empty list.
    - a Go [string] is a [string]; [[]byte(s)] is [list_byte_of_string] and
      [string(b)] is [string_of_list_byte].
    - Go's [int] is [Z]; slice lengths stay far below 2^63, so no wrap-around
      is written out for length arithmetic.
    - a Go result pair [(T, error)] is a pair [T * option error].
    - [context.Context] is only handed through to the capabilities and is
      left out; a cipher or decipher capability is a function of its
      payload and secret.
    - the logger, the settings registry and the usage-stats service are
      sinks: what is sent to them is recorded as a list of [event]s, as are
      the calls made to cipher and decipher capabilities. *)

From Stdlib Require Import ZArith List String Ascii Lia.
From Stdlib.Strings Require Import Byte.
From stdpp Require Import base option list gmap strings pretty.

Local Open Scope Z_scope.

(** ** Bytes *)

#[global] Instance byte_eq_dec : EqDecision byte := Byte.byte_eq_dec.

Module Bytes.

(** [uint(b)] *)
Definition to_Z (b : byte) : Z := Z.of_N (Byte.to_N b).

(** [byte(v)]: conversion keeps the low 8 bits. *)
Definition of_Z (v : Z) : byte :=
  match Byte.of_N (Z.to_N (v mod 256)) with
  | Some b => b
  | None => x00
  end.

(** [bytes.Index(b, []byte{c})]: index of the first [c] in [b], or -1. *)
Fixpoint IndexByte (b : list byte) (c : byte) : Z :=
  match b with
  | [] => -1
  | x :: r =>
      if Byte.eqb x c then 0
      else let i := IndexByte r c in
           if i =? -1 then -1 else i + 1
  end.

(** [make([]byte, n)] *)
Definition make (n : Z) : list byte := replicate (Z.to_nat n) x00.

(** [b[i:]] and [b[:i]] *)
Definition from (b : list byte) (i : Z) : list byte := drop (Z.to_nat i) b.
Definition upto (b : list byte) (i : Z) : list byte := take (Z.to_nat i) b.

(** [copy(dst[off:], src)]: overwrites [min(len(dst)-off, len(src))]
    positions of [dst] starting at [off]; [dst] keeps its length. *)
Definition copy_at (off : Z) (dst src : list byte) : list byte :=
  let o := Z.to_nat off in
  let n := Nat.min (length dst - o) (length src) in
  take o dst ++ take n src ++ drop (o + n) dst.

(** [dst[i] = c] (in range at every use below). *)
Definition set (dst : list byte) (i : Z) (c : byte) : list byte :=
  <[Z.to_nat i := c]> dst.

Definition len (b : list byte) : Z := Z.of_nat (length b).

End Bytes.

(** ** encoding/base64, the [RawStdEncoding] value

    Standard alphabet, no padding character, not strict. *)

Module Base64.

Definition encodeStd : list byte :=
  list_byte_of_string
    "ABCDEFGHIJKLMNOPQRSTUVWXYZabcdefghijklmnopqrstuvwxyz0123456789+/".

(** [enc.encode[i]] for a 6-bit [i]. *)
Definition encode (i : Z) : byte := nth (Z.to_nat i) encodeStd x00.

(** [enc.decodeMap[c]]: the table is filled with 0xff and then
    [decodeMap[encode[i]] = i] for each of the 64 letters. *)
Definition decodeMap (c : byte) : Z :=
  let i := Bytes.IndexByte encodeStd c in
  if i =? -1 then 255 else i.

(** [EncodedLen] with [padChar == NoPadding]. *)
Definition EncodedLen (n : Z) : Z := n / 3 * 4 + (n mod 3 * 8 + 5) / 6.

(** [DecodedLen] with [padChar == NoPadding]. *)
Definition DecodedLen (n : Z) : Z := n * 6 / 8.

(** [Encode]: the bytes written to [dst], three source bytes at a time,
    then the remaining one or two without padding. *)
Fixpoint Encode (src : list byte) : list byte :=
  match src with
  | b0 :: b1 :: b2 :: rest =>
      let val := Z.lor (Z.lor (Z.shiftl (Bytes.to_Z b0) 16)
                              (Z.shiftl (Bytes.to_Z b1) 8))
                       (Bytes.to_Z b2) in
      encode (Z.land (Z.shiftr val 18) 63)
      :: encode (Z.land (Z.shiftr val 12) 63)
      :: encode (Z.land (Z.shiftr val 6) 63)
      :: encode (Z.land val 63)
      :: Encode rest
  | [b0; b1] =>
      let val := Z.lor (Z.shiftl (Bytes.to_Z b0) 16)
                       (Z.shiftl (Bytes.to_Z b1) 8) in
      [encode (Z.land (Z.shiftr val 18) 63);
       encode (Z.land (Z.shiftr val 12) 63);
       encode (Z.land (Z.shiftr val 6) 63)]
  | [b0] =>
      let val := Z.shiftl (Bytes.to_Z b0) 16 in
      [encode (Z.land (Z.shiftr val 18) 63);
       encode (Z.land (Z.shiftr val 12) 63)]
  | [] => []
  end.

(** The tail of [decodeQuantum]: [dbuf] holds [dlen] sextets (the rest
    zero); [dlen - 1] bytes are produced. *)
Definition quantum_bytes (dbuf : list Z) : list byte :=
  let d i := nth i dbuf 0 in
  let val := Z.lor (Z.lor (Z.lor (Z.shiftl (d 0%nat) 18)
                                 (Z.shiftl (d 1%nat) 12))
                          (Z.shiftl (d 2%nat) 6))
                   (d 3%nat) in
  take (length dbuf - 1)
       [Bytes.of_Z (Z.shiftr val 16); Bytes.of_Z (Z.shiftr val 8);
        Bytes.of_Z val].

(** [Decode]'s loop over [decodeQuantum], as one pass over the source.
    [si] is the index of the next source byte, [dbuf] the sextets read so
    far in the current quantum ([j = length dbuf]).  Carriage returns and
    line feeds are skipped; any other byte outside the alphabet is
    [CorruptInputError(si)]; a source that ends one sextet into a quantum
    is [CorruptInputError(len(src) - 1)].  The result is the bytes written
    or the offset of the corrupt input.  (The 8- and 4-byte fast paths of
    [Decode] produce what this loop produces on the same bytes.) *)
Fixpoint decode_from (src : list byte) (si : Z) (dbuf : list Z)
  : list byte + Z :=
  match src with
  | [] =>
      match dbuf with
      | [] => inl []
      | [_] => inr (si - 1)
      | _ => inl (quantum_bytes dbuf)
      end
  | c :: rest =>
      let out := decodeMap c in
      if negb (out =? 255) then
        let dbuf' := dbuf ++ [out] in
        if (length dbuf' =? 4)%nat then
          match decode_from rest (si + 1) [] with
          | inl bs => inl (quantum_bytes dbuf' ++ bs)
          | inr e => inr e
          end
        else decode_from rest (si + 1) dbuf'
      else if Byte.eqb c x0a || Byte.eqb c x0d then
        decode_from rest (si + 1) dbuf
      else inr si
  end.

(** [Decode(dst, src)]: on success the destination buffer after the call
    and the number of bytes written; on failure the offset carried by the
    [CorruptInputError] (the callers below drop the buffer then). *)
Definition Decode (dst src : list byte) : list byte * Z + Z :=
  match decode_from src 0 [] with
  | inl bs => inl (Bytes.copy_at 0 dst bs, Bytes.len bs)
  | inr off => inr off
  end.

(** [Encode(dst[off:], src)]: the destination buffer after the call. *)
Definition Encode_at (off : Z) (dst src : list byte) : list byte :=
  Bytes.copy_at off dst (Encode src).

End Base64.


(** ** Errors, events and the trace of a call *)

(** The [error] values this package meets: message-only errors
    ([errors.New], [fmt.Errorf] without wrapping, and whatever message a
    capability fails with) and [base64.CorruptInputError]. *)
Inductive error : Type :=
  | errorString (s : string)
  | CorruptInputError (offset : Z).

(** The [Error()] method. *)
Definition Error (e : error) : string :=
  match e with
  | errorString s => s
  | CorruptInputError off => "illegal base64 data at input byte " +:+ pretty off
  end.

(** A value of a structured log entry. *)
Inductive logval : Type :=
  | LString (s : string)
  | LError (e : error).

Inductive event : Type :=
  | LogError (msg : string) (ctx : list (string * logval))
  | LogDebug (msg : string)
  | CipherCall (algorithm : string) (payload : list byte) (secret : string)
  | DecipherCall (algorithm : string) (payload : list byte) (secret : string)
  | RegisterReloadHandler (section : string)
  | RegisterMetricsFunc.

(** A call yields its value and the events it caused, oldest first. *)
Definition M (A : Type) : Type := (A * list event)%type.

Definition ret {A} (a : A) : M A := (a, []).

Definition bind {A B} (m : M A) (k : A -> M B) : M B :=
  let '(a, t1) := m in
  let '(b, t2) := k a in
  (b, t1 ++ t2).

Definition tell (t : list event) : M unit := (tt, t).

Definition value {A} (m : M A) : A := fst m.
Definition trace {A} (m : M A) : list event := snd m.

Notation "'let*' x ':=' m 'in' k" := (bind m (fun x => k))
  (at level 10, x pattern, m at level 100, k at level 200).

(** Whether an event is a call of a decipher (resp. cipher) capability. *)
Definition is_decipher_call (e : event) : bool :=
  match e with DecipherCall _ _ _ => true | _ => false end.

Definition is_cipher_call (e : event) : bool :=
  match e with CipherCall _ _ _ => true | _ => false end.

(** [contains s sub]: [sub] occurs in [s]. *)
Fixpoint contains (s sub : string) : bool :=
  if String.prefix sub s then true
  else match s with
       | EmptyString => false
       | String _ s' => contains s' sub
       end.

(** An error names an algorithm when its message contains the identifier. *)
Definition names (e : error) (algorithm : string) : bool :=
  contains (Error e) algorithm.

(** ** pkg/services/encryption: the capability interfaces *)

Module encryption.

(** Modelled from the spec: the constant [encryption.AesCfb] is declared
    outside this file; the spec gives the default algorithm identifier as
    "aes-cfb". *)
Definition AesCfb : string := "aes-cfb".

(** Modelled from the spec: interface [encryption.Cipher], one method
    [Encrypt(ctx, payload, secret) ([]byte, error)].  An implementation is
    taken as a function of its payload and secret. *)
Record Cipher : Type :=
  { Encrypt : list byte -> string -> list byte * option error }.

(** Modelled from the spec: interface [encryption.Decipher], one method
    [Decrypt(ctx, payload, secret) ([]byte, error)]. *)
Record Decipher : Type :=
  { Decrypt : list byte -> string -> list byte * option error }.

(** Modelled from the spec: interface [encryption.Provider]. *)
Record Provider : Type :=
  { ProvideCiphers : gmap string Cipher;
    ProvideDeciphers : gmap string Decipher }.

End encryption.

(** ** pkg/setting: the configuration accessor *)

Module setting.

(** Modelled from the spec: [KeyValue.MustString(defaultVal)] yields the
    stored value, or [defaultVal] when the key is unset (an unset key
    reads as the empty string). *)
Definition MustString (v defaultVal : string) : string :=
  if decide (v = "") then defaultVal else v.

(** Modelled from the spec: [setting.Provider], read through
    [KeyValue(section, key)]. *)
Record Provider : Type :=
  { KeyValue : string -> string -> string }.

(** Modelled from the spec: [setting.Section], read through
    [KeyValue(key)]. *)
Record Section : Type :=
  { SectionKeyValue : string -> string }.

End setting.

(** ** service.go *)

Module service.

Definition encryptionAlgorithmDelimiter : byte := "*"%byte.
Definition securitySection : string := "security.encryption".
Definition encryptionAlgorithmKey : string := "algorithm".
Definition defaultEncryptionAlgorithm : string := encryption.AesCfb.

Record Service : Type :=
  { settingsProvider : setting.Provider;
    ciphers : gmap string encryption.Cipher;
    deciphers : gmap string encryption.Decipher }.

(** The configured algorithm, as read at lines 51-53, 89-91 and 164-166. *)
Definition configuredAlgorithm (sp : setting.Provider) : string :=
  setting.MustString
    (setting.KeyValue sp securitySection encryptionAlgorithmKey)
    defaultEncryptionAlgorithm.

(** A deferred [if err != nil { s.log.Error(msg, ctx..., "error", err) }],
    run with the value [err] has when the function returns. *)
Definition deferred (msg : string) (ctx : list (string * logval))
    (err : option error) : M unit :=
  match err with
  | Some e => tell [LogError msg (ctx ++ [("error", LError e)])]
  | None => ret tt
  end.

Definition checkEncryptionAlgorithm (s : Service) (algorithm : string)
  : M (option error) :=
  let log := deferred "Wrong security encryption configuration"
                      [("algorithm", LString algorithm)] in
  match ciphers s !! algorithm with
  | None =>
      let err :=
        Some (errorString
                "no cipher registered for encryption algorithm configured") in
      let* _ := log err in ret err
  | Some _ =>
      match deciphers s !! algorithm with
      | None =>
          let err :=
            Some (errorString
                    "no cipher registered for encryption algorithm configured") in
          let* _ := log err in ret err
      | Some _ => let* _ := log None in ret None
      end
  end.

(** The metrics the registered callback reports. *)
Definition usageMetrics (s : Service) : gmap string Z * option error :=
  let algorithm := configuredAlgorithm (settingsProvider s) in
  ({[ "stats.encryption." +:+ algorithm +:+ ".count" := 1 ]}, None).

Definition registerUsageMetrics (s : Service) : M unit :=
  tell [RegisterMetricsFunc].

Definition ProvideEncryptionService (provider : encryption.Provider)
    (sp : setting.Provider) : M (option Service * option error) :=
  let s := {| settingsProvider := sp;
              ciphers := encryption.ProvideCiphers provider;
              deciphers := encryption.ProvideDeciphers provider |} in
  let algorithm := configuredAlgorithm (settingsProvider s) in
  let* err := checkEncryptionAlgorithm s algorithm in
  match err with
  | Some e => ret (None, Some e)
  | None =>
      let* _ := tell [RegisterReloadHandler securitySection] in
      let* _ := registerUsageMetrics s in
      ret (Some s, None)
  end.

Definition deriveEncryptionAlgorithm (payload : list byte)
  : string * list byte * option error :=
  if Bytes.len payload =? 0 then
    (""%string, [],
     Some (errorString "unable to derive encryption algorithm"))
  else if negb (Byte.eqb (nth 0 payload x00) encryptionAlgorithmDelimiter)
  then (encryption.AesCfb, payload, None)
  else
    let payload := Bytes.from payload 1 in
    let algorithmDelimiterIdx :=
      Bytes.IndexByte payload encryptionAlgorithmDelimiter in
    if algorithmDelimiterIdx =? -1 then (encryption.AesCfb, payload, None)
    else
      let algorithmB64 := Bytes.upto payload algorithmDelimiterIdx in
      let payload := Bytes.from payload (algorithmDelimiterIdx + 1) in
      let algorithm :=
        Bytes.make (Base64.DecodedLen (Bytes.len algorithmB64)) in
      match Base64.Decode algorithm algorithmB64 with
      | inr off => (""%string, [], Some (CorruptInputError off))
      | inl (algorithm, _) => (string_of_list_byte algorithm, payload, None)
      end.

Definition Decrypt (s : Service) (payload : list byte) (secret : string)
  : M (list byte * option error) :=
  let log := deferred "Decryption failed" [] in
  let '(algorithm, toDecrypt, err) := deriveEncryptionAlgorithm payload in
  match err with
  | Some _ => let* _ := log err in ret ([], err)
  | None =>
      match deciphers s !! algorithm with
      | None =>
          let err :=
            Some (errorString ("no decipher available for algorithm '"
                               +:+ algorithm +:+ "'")) in
          let* _ := log err in ret ([], err)
      | Some decipher =>
          let* (decrypted, err) :=
            (encryption.Decrypt decipher toDecrypt secret,
             [DecipherCall algorithm toDecrypt secret]) in
          let* _ := log err in ret (decrypted, err)
      end
  end.

Definition Encrypt (s : Service) (payload : list byte) (secret : string)
  : M (list byte * option error) :=
  let log := deferred "Encryption failed" [] in
  let algorithm := configuredAlgorithm (settingsProvider s) in
  match ciphers s !! algorithm with
  | None =>
      let err :=
        Some (errorString ("no cipher available for algorithm '"
                           +:+ algorithm +:+ "'")) in
      let* _ := log err in ret ([], err)
  | Some cipher =>
      let* (encrypted, err) :=
        (encryption.Encrypt cipher payload secret,
         [CipherCall algorithm payload secret]) in
      let prefix :=
        Bytes.make
          (Base64.EncodedLen (Bytes.len (list_byte_of_string algorithm))
           + 2) in
      let prefix :=
        Base64.Encode_at 1 prefix (list_byte_of_string algorithm) in
      let prefix := Bytes.set prefix 0 encryptionAlgorithmDelimiter in
      let prefix :=
        Bytes.set prefix (Bytes.len prefix - 1)
                  encryptionAlgorithmDelimiter in
      let ciphertext :=
        Bytes.make (Bytes.len prefix + Bytes.len encrypted) in
      let ciphertext := Bytes.copy_at 0 ciphertext prefix in
      let ciphertext :=
        Bytes.copy_at (Bytes.len prefix) ciphertext encrypted in
      let* _ := log err in ret (ciphertext, None)
  end.

(** [for key, value := range kv]: the loop body run over the entries in
    the order the runtime happens to deliver them. *)
Fixpoint EncryptJsonData_range (s : Service)
    (entries : list (string * string)) (secret : string)
    (encrypted : gmap string (list byte))
  : M (gmap string (list byte) * option error) :=
  match entries with
  | [] => ret (encrypted, None)
  | (key, v) :: rest =>
      let* (encryptedData, err) :=
        Encrypt s (list_byte_of_string v) secret in
      match err with
      | Some e => ret (∅, Some e)
      | None =>
          EncryptJsonData_range s rest secret
                                (<[key := encryptedData]> encrypted)
      end
  end.

(** [entries] is the order in which [range] walks the map. *)
Definition EncryptJsonData (s : Service) (entries : list (string * string))
    (secret : string) : M (gmap string (list byte) * option error) :=
  EncryptJsonData_range s entries secret ∅.

Fixpoint DecryptJsonData_range (s : Service)
    (entries : list (string * list byte)) (secret : string)
    (decrypted : gmap string string)
  : M (gmap string string * option error) :=
  match entries with
  | [] => ret (decrypted, None)
  | (key, data) :: rest =>
      let* (decryptedData, err) := Decrypt s data secret in
      match err with
      | Some e => ret (∅, Some e)
      | None =>
          DecryptJsonData_range s rest secret
            (<[key := string_of_list_byte decryptedData]> decrypted)
      end
  end.

Definition DecryptJsonData (s : Service)
    (entries : list (string * list byte)) (secret : string)
  : M (gmap string string * option error) :=
  DecryptJsonData_range s entries secret ∅.

(** An order in which [range] may walk [m]: each entry exactly once. *)
Definition range_order {V} (m : gmap string V)
    (entries : list (string * V)) : Prop :=
  entries ≡ₚ map_to_list m.

Definition GetDecryptedValue (s : Service) (sjd : gmap string (list byte))
    (key fallback secret : string) : M string :=
  match sjd !! key with
  | Some v =>
      let* (decryptedData, err) := Decrypt s v secret in
      match err with
      | Some _ => ret fallback
      | None => ret (string_of_list_byte decryptedData)
      end
  | None => ret fallback
  end.

Definition Validate (s : Service) (section : setting.Section)
  : M (option error) :=
  let* _ := tell [LogDebug "Validating encryption config"] in
  let algorithm :=
    setting.MustString
      (setting.SectionKeyValue section encryptionAlgorithmKey)
      defaultEncryptionAlgorithm in
  let* err := checkEncryptionAlgorithm s algorithm in
  match err with
  | Some e => ret (Some e)
  | None => ret None
  end.

Definition Reload (s : Service) (section : setting.Section)
  : M (option error) :=
  ret None.

End service.

(** ** The wire format and the vocabulary of the properties *)

(** The framed ciphertext as the specification words it:
    [0x2A || base64_no_pad(algorithm_identifier_bytes) || 0x2A ||
    raw_cipher_output]. *)
Definition frame (algorithm : string) (raw : list byte) : list byte :=
  "*"%byte :: Base64.Encode (list_byte_of_string algorithm)
  ++ "*"%byte :: raw.

(** A base64 segment names [algorithm] when decoding it into a fresh buffer
    of [DecodedLen] bytes succeeds and leaves [algorithm] in the buffer. *)
Definition segment_names (b64 : list byte) (algorithm : string) : Prop :=
  exists n,
    Base64.Decode (Bytes.make (Base64.DecodedLen (Bytes.len b64))) b64
    = inl (list_byte_of_string algorithm, n).

(** The specification's error kinds, as the values the code builds. *)
Definition EmptyInputError : error :=
  errorString "unable to derive encryption algorithm".

Definition UnavailableDecipherError (algorithm : string) : error :=
  errorString ("no decipher available for algorithm '" +:+ algorithm +:+ "'").

Definition UnavailableCipherError (algorithm : string) : error :=
  errorString ("no cipher available for algorithm '" +:+ algorithm +:+ "'").

Definition ConfigurationError : error :=
  errorString "no cipher registered for encryption algorithm configured".

(** What the deferred logger of [Encrypt] and [Decrypt] writes. *)
Definition failure_log (msg : string) (err : option error) : list event :=
  match err with
  | Some e => [LogError msg [("error", LError e)]]
  | None => []
  end.

(** The decipher calls recorded in a trace. *)
Definition decipher_calls (t : list event) : list event :=
  List.filter is_decipher_call t.

(** The error of the first entry, in iteration order, on which [f] fails. *)
Fixpoint first_error {V A} (f : V -> M (A * option error))
    (entries : list (string * V)) : option error :=
  match entries with
  | [] => None
  | (_, v) :: rest =>
      match snd (value (f v)) with
      | Some e => Some e
      | None => first_error f rest
      end
  end.

(** The batch contract as the specification words it: fail fast on the first
    per-key error and discard the partial results; otherwise every value of
    the input map transformed on its own, under the same key. *)
Definition batch {V A B} (f : V -> M (A * option error)) (post : A -> B)
    (kv : gmap string V) (entries : list (string * V))
  : gmap string B * option error :=
  match first_error f entries with
  | Some e => (∅, Some e)
  | None => ((fun v => post (fst (value (f v)))) <$> kv, None)
  end.

(** The cipher calls and the error log entries recorded in a trace. *)
Definition cipher_calls (t : list event) : list event :=
  List.filter is_cipher_call t.

Definition is_log_error (e : event) : bool :=
  match e with LogError _ _ => true | _ => false end.

Definition log_errors (t : list event) : list event :=
  List.filter is_log_error t.

(** A byte of the base64 alphabet, and a byte the decoder steps over. *)
Definition b64_letter (c : byte) : bool := negb (Base64.decodeMap c =? 255).

Definition b64_skipped (c : byte) : bool := Byte.eqb c x0a || Byte.eqb c x0d.

(** ** Sample capabilities and services, used to run the definitions *)

Module sample.

(** A toy cipher: the secret is put in front of the payload. *)
Definition tagCipher : encryption.Cipher :=
  {| encryption.Encrypt p secret := (list_byte_of_string secret ++ p, None) |}.

Definition tagDecipher : encryption.Decipher :=
  {| encryption.Decrypt c secret :=
       let k := list_byte_of_string secret in
       if decide (take (length k) c = k) then (drop (length k) c, None)
       else ([], Some (errorString "wrong secret")) |}.

(** A cipher that always fails. *)
Definition failingCipher : encryption.Cipher :=
  {| encryption.Encrypt _ _ := ([], Some (errorString "cipher failure")) |}.

(** No [algorithm] key in the [security.encryption] section. *)
Definition unset : setting.Provider :=
  {| setting.KeyValue _ _ := ""%string |}.

Definition aesOnly : service.Service :=
  {| service.settingsProvider := unset;
     service.ciphers := {[ "aes-cfb"%string := tagCipher ]};
     service.deciphers := {[ "aes-cfb"%string := tagDecipher ]} |}.

Definition failing : service.Service :=
  {| service.settingsProvider := unset;
     service.ciphers := {[ "aes-cfb"%string := failingCipher ]};
     service.deciphers := {[ "aes-cfb"%string := tagDecipher ]} |}.

Definition emptyProvider : encryption.Provider :=
  {| encryption.ProvideCiphers := ∅; encryption.ProvideDeciphers := ∅ |}.

Definition aesProvider : encryption.Provider :=
  {| encryption.ProvideCiphers := {[ "aes-cfb"%string := tagCipher ]};
     encryption.ProvideDeciphers := {[ "aes-cfb"%string := tagDecipher ]} |}.

Definition hello : list byte := list_byte_of_string "hello".

Definition plainJson : gmap string string :=
  {[ "a"%string := "1"%string; "b"%string := "2"%string ]}.

Definition secureJson : gmap string (list byte) :=
  {[ "a"%string := list_byte_of_string "kabc" ]}.

(** A second toy algorithm: the payload reversed, whatever the secret. *)
Definition revCipher : encryption.Cipher :=
  {| encryption.Encrypt p _ := (rev p, None) |}.

Definition revDecipher : encryption.Decipher :=
  {| encryption.Decrypt c _ := (rev c, None) |}.

(** The [algorithm] key of [security.encryption] set to [a]. *)
Definition configured (a : string) : setting.Provider :=
  {| setting.KeyValue section key :=
       if decide (section = "security.encryption"%string
                  /\ key = "algorithm"%string)
       then a else ""%string |}.

Definition bothProvider : encryption.Provider :=
  {| encryption.ProvideCiphers :=
       {[ "aes-cfb"%string := tagCipher; "rev"%string := revCipher ]};
     encryption.ProvideDeciphers :=
       {[ "aes-cfb"%string := tagDecipher; "rev"%string := revDecipher ]} |}.

(** Both algorithms registered, [a] configured. *)
Definition both (a : string) : service.Service :=
  {| service.settingsProvider := configured a;
     service.ciphers := encryption.ProvideCiphers bothProvider;
     service.deciphers := encryption.ProvideDeciphers bothProvider |}.

(** A cipher registered without its decipher. *)
Definition cipherOnly : service.Service :=
  {| service.settingsProvider := unset;
     service.ciphers := {[ "aes-cfb"%string := tagCipher ]};
     service.deciphers := ∅ |}.

Definition noSection : setting.Section :=
  {| setting.SectionKeyValue _ := ""%string |}.

End sample.

(** * Properties *)

(** ** The definitions at work *)

Section Runs.

Import service.

Local Notation bytes := list_byte_of_string.

Example Encode_aes_cfb : Base64.Encode (bytes "aes-cfb") = bytes "YWVzLWNmYg".
Proof. reflexivity. Qed.

Example Encode_lengths :
  map (fun w => Bytes.len (Base64.Encode (bytes w))) [""; "a"; "ab"; "abc"]%string
  = map (fun w => Base64.EncodedLen (Bytes.len (bytes w)))
        [""; "a"; "ab"; "abc"]%string.
Proof. reflexivity. Qed.

(** Line feeds are skipped, and the buffer sized from the source length
    keeps a trailing zero byte. *)
Example Decode_line_feed :
  let src := bytes "YWVz" ++ [x0a] ++ bytes "LWNmYg" in
  Base64.Decode (Bytes.make (Base64.DecodedLen (Bytes.len src))) src
  = inl (bytes "aes-cfb" ++ [x00], 7).
Proof. reflexivity. Qed.

Example Decode_corrupt : Base64.decode_from (bytes "YW*Vz") 0 [] = inr 2.
Proof. reflexivity. Qed.

Example Decode_truncated : Base64.decode_from (bytes "YWVzL") 0 [] = inr 4.
Proof. reflexivity. Qed.

Example derive_framed :
  deriveEncryptionAlgorithm (bytes "*YWVzLWNmYg*payload")
  = ("aes-cfb"%string, bytes "payload", None).
Proof. reflexivity. Qed.

Example derive_malformed :
  deriveEncryptionAlgorithm (bytes "*YW=*payload")
  = (""%string, [], Some (CorruptInputError 2)).
Proof. reflexivity. Qed.

Example Encrypt_hello :
  Encrypt sample.aesOnly (bytes "hello") "k"
  = (bytes "*YWVzLWNmYg*khello", None,
     [CipherCall "aes-cfb" (bytes "hello") "k"]).
Proof. reflexivity. Qed.

Example Decrypt_hello :
  Decrypt sample.aesOnly (bytes "*YWVzLWNmYg*khello") "k"
  = (bytes "hello", None, [DecipherCall "aes-cfb" (bytes "khello") "k"]).
Proof. reflexivity. Qed.

Example Decrypt_wrong_secret :
  Decrypt sample.aesOnly (bytes "*YWVzLWNmYg*khello") "j"
  = ([], Some (errorString "wrong secret"),
     [DecipherCall "aes-cfb" (bytes "khello") "j";
      LogError "Decryption failed"
               [("error", LError (errorString "wrong secret"))]]).
Proof. reflexivity. Qed.

Example Provide_registered :
  ProvideEncryptionService sample.aesProvider sample.unset
  = (Some sample.aesOnly, None,
     [RegisterReloadHandler "security.encryption"; RegisterMetricsFunc]).
Proof. reflexivity. Qed.

Example usageMetrics_default :
  usageMetrics sample.aesOnly
  = ({[ "stats.encryption.aes-cfb.count"%string := 1 ]}, None).
Proof. reflexivity. Qed.

Example JsonData_there_and_back :
  let encrypted :=
    fst (value (EncryptJsonData sample.aesOnly
                  [("a", "1"); ("b", "2")]%string "k")) in
  value (DecryptJsonData sample.aesOnly (map_to_list encrypted) "k")
  = (sample.plainJson, None).
Proof. vm_compute. reflexivity. Qed.

End Runs.

(** ** Bytes *)

Section BytesFacts.

Lemma to_Z_range (b : byte) : 0 <= Bytes.to_Z b < 256.
Proof.
  unfold Bytes.to_Z. pose proof (Byte.to_N_bounded b). lia.
Qed.

Lemma of_to_Z (b : byte) : Bytes.of_Z (Bytes.to_Z b) = b.
Proof.
  unfold Bytes.of_Z. pose proof (to_Z_range b) as Hb.
  rewrite Z.mod_small by lia. unfold Bytes.to_Z.
  rewrite N2Z.id, Byte.of_to_N. reflexivity.
Qed.

Lemma of_Z_mod (v : Z) (b : byte) :
  v mod 256 = Bytes.to_Z b -> Bytes.of_Z v = b.
Proof.
  intros Hv. rewrite <- (of_to_Z b). unfold Bytes.of_Z.
  rewrite Hv. pose proof (to_Z_range b).
  rewrite (Z.mod_small (Bytes.to_Z b)) by lia. reflexivity.
Qed.

Lemma byte_eqb_eq (a b : byte) : Byte.eqb a b = true <-> a = b.
Proof.
  split; [apply Byte.byte_dec_bl | apply Byte.byte_dec_lb].
Qed.

Lemma byte_eqb_neq (a b : byte) : Byte.eqb a b = false <-> a <> b.
Proof.
  rewrite <- byte_eqb_eq. destruct (Byte.eqb a b); split; congruence.
Qed.

Lemma IndexByte_range (l : list byte) (c : byte) :
  -1 <= Bytes.IndexByte l c < Bytes.len l.
Proof.
  unfold Bytes.len. induction l as [|x l IH]; simpl; [lia|].
  destruct (Byte.eqb x c); [lia|].
  destruct (Z.eqb_spec (Bytes.IndexByte l c) (-1)); lia.
Qed.

(** The first occurrence: nothing before it is [c]. *)
Lemma IndexByte_app (l r : list byte) (c : byte) :
  c ∉ l -> Bytes.IndexByte (l ++ c :: r) c = Bytes.len l.
Proof.
  unfold Bytes.len. induction l as [|x l IH]; intros Hnot; simpl.
  - assert (Byte.eqb c c = true) as -> by (apply byte_eqb_eq; reflexivity).
    reflexivity.
  - apply not_elem_of_cons in Hnot as [Hne Hnot].
    assert (Byte.eqb x c = false) as ->
      by (apply byte_eqb_neq; congruence).
    rewrite (IH Hnot).
    destruct (Z.eqb_spec (Z.of_nat (length l)) (-1)); lia.
Qed.

Lemma IndexByte_absent (l : list byte) (c : byte) :
  Bytes.IndexByte l c = -1 <-> c ∉ l.
Proof.
  induction l as [|x l IH]; simpl.
  - split; [intros _; apply not_elem_of_nil | reflexivity].
  - rewrite not_elem_of_cons.
    destruct (Byte.eqb x c) eqn:E.
    + apply byte_eqb_eq in E. split; [lia | intros [? _]; congruence].
    + apply byte_eqb_neq in E.
      pose proof (IndexByte_range l c).
      destruct (Z.eqb_spec (Bytes.IndexByte l c) (-1)) as [e|ne].
      * split; [intros _; split; [congruence | tauto] | reflexivity].
      * split; [lia | intros [_ H']; tauto].
Qed.

Lemma len_app (a b : list byte) :
  Bytes.len (a ++ b) = Bytes.len a + Bytes.len b.
Proof. unfold Bytes.len. rewrite length_app. lia. Qed.

Lemma len_make (n : Z) : 0 <= n -> Bytes.len (Bytes.make n) = n.
Proof.
  intros Hn. unfold Bytes.len, Bytes.make. rewrite length_replicate. lia.
Qed.

Lemma len_nonneg (a : list byte) : 0 <= Bytes.len a.
Proof. unfold Bytes.len. lia. Qed.

(** Copying a source that fits from [off] on replaces exactly that part. *)
Lemma copy_at_fits (off : Z) (dst src : list byte) :
  0 <= off -> off + Bytes.len src <= Bytes.len dst ->
  Bytes.copy_at off dst src =
  take (Z.to_nat off) dst ++ src
  ++ drop (Z.to_nat off + length src) dst.
Proof.
  unfold Bytes.len, Bytes.copy_at. intros H0 Hfit.
  rewrite Nat.min_r by lia. rewrite firstn_all. reflexivity.
Qed.

Lemma copy_at_whole (dst src : list byte) :
  length src = length dst -> Bytes.copy_at 0 dst src = src.
Proof.
  intros Hlen. rewrite copy_at_fits by (unfold Bytes.len; lia).
  simpl. rewrite Hlen, drop_all. apply app_nil_r.
Qed.

Lemma len_copy_at (off : Z) (dst src : list byte) :
  0 <= off <= Bytes.len dst ->
  Bytes.len (Bytes.copy_at off dst src) = Bytes.len dst.
Proof.
  unfold Bytes.len, Bytes.copy_at. intros H0.
  rewrite !length_app, !length_take, length_drop. lia.
Qed.

End BytesFacts.

(** ** encoding/base64 *)

Section Base64Facts.

(** Or-ing into zero low bits is addition. *)
Lemma lor_disjoint (x a k : Z) :
  0 <= k -> 0 <= a < 2 ^ k -> x mod 2 ^ k = 0 -> Z.lor x a = x + a.
Proof.
  intros Hk Ha Hx.
  rewrite <- (Z.add_lor_land x a).
  assert (Z.land x a = 0) as ->; [|lia].
  apply Z.bits_inj'. intros n Hn.
  rewrite Z.land_spec, Z.bits_0.
  destruct (Z.lt_ge_cases n k) as [Hlt|Hge].
  - rewrite (Z.div_mod x (2 ^ k)) by lia.
    rewrite Hx, Z.add_0_r, Z.mul_comm.
    rewrite Z.mul_pow2_bits_low by lia. reflexivity.
  - rewrite <- (Z.mod_small a (2 ^ k)) by lia.
    rewrite Z.mod_pow2_bits_high by lia. apply Bool.andb_false_r.
Qed.

Lemma sextet (v k : Z) :
  0 <= k -> Z.land (Z.shiftr v k) 63 = (v / 2 ^ k) mod 64.
Proof.
  intros Hk. rewrite Z.shiftr_div_pow2 by lia.
  change 63 with (Z.ones 6). rewrite Z.land_ones by lia. reflexivity.
Qed.

Lemma sextet_range (v k : Z) : 0 <= Z.land (Z.shiftr v k) 63 < 64.
Proof.
  change 63 with (Z.ones 6). rewrite Z.land_ones by lia.
  apply Z.mod_pos_bound. lia.
Qed.

Lemma low_sextet_range (v : Z) : 0 <= Z.land v 63 < 64.
Proof. apply (sextet_range v 0). Qed.

(** [uint(b0)<<16 | uint(b1)<<8 | uint(b2)] *)
Lemma val_of_bytes (b0 b1 b2 : Z) :
  0 <= b0 < 256 -> 0 <= b1 < 256 -> 0 <= b2 < 256 ->
  Z.lor (Z.lor (Z.shiftl b0 16) (Z.shiftl b1 8)) b2
  = b0 * 65536 + b1 * 256 + b2.
Proof.
  intros H0 H1 H2. rewrite !Z.shiftl_mul_pow2 by lia.
  change (2 ^ 16) with 65536. change (2 ^ 8) with 256.
  rewrite (lor_disjoint (b0 * 65536) (b1 * 256) 16);
    [|lia|change (2 ^ 16) with 65536; lia
     |change (2 ^ 16) with 65536; apply Z.mod_mul; lia].
  apply (lor_disjoint _ b2 8); [lia|change (2 ^ 8) with 256; lia|].
  change (2 ^ 8) with 256.
  replace (b0 * 65536 + b1 * 256) with ((b0 * 256 + b1) * 256) by lia.
  apply Z.mod_mul; lia.
Qed.

(** [dbuf[0]<<18 | dbuf[1]<<12 | dbuf[2]<<6 | dbuf[3]] *)
Lemma val_of_sextets (s0 s1 s2 s3 : Z) :
  0 <= s0 < 64 -> 0 <= s1 < 64 -> 0 <= s2 < 64 -> 0 <= s3 < 64 ->
  Z.lor (Z.lor (Z.lor (Z.shiftl s0 18) (Z.shiftl s1 12)) (Z.shiftl s2 6)) s3
  = s0 * 262144 + s1 * 4096 + s2 * 64 + s3.
Proof.
  intros H0 H1 H2 H3. rewrite !Z.shiftl_mul_pow2 by lia.
  change (2 ^ 18) with 262144. change (2 ^ 12) with 4096.
  change (2 ^ 6) with 64.
  rewrite (lor_disjoint (s0 * 262144) (s1 * 4096) 18);
    [|lia|change (2 ^ 18) with 262144; lia
     |change (2 ^ 18) with 262144; apply Z.mod_mul; lia].
  rewrite (lor_disjoint (s0 * 262144 + s1 * 4096) (s2 * 64) 12);
    [|lia|change (2 ^ 12) with 4096; lia|].
  2:{ change (2 ^ 12) with 4096.
      replace (s0 * 262144 + s1 * 4096) with ((s0 * 64 + s1) * 4096) by lia.
      apply Z.mod_mul; lia. }
  apply (lor_disjoint _ s3 6); [lia|change (2 ^ 6) with 64; lia|].
  change (2 ^ 6) with 64.
  replace (s0 * 262144 + s1 * 4096 + s2 * 64)
    with ((s0 * 4096 + s1 * 64 + s2) * 64) by lia.
  apply Z.mod_mul; lia.
Qed.

Lemma low_sextet (v : Z) : Z.land v 63 = v mod 64.
Proof.
  change 63 with (Z.ones 6). rewrite Z.land_ones by lia. reflexivity.
Qed.

(** The four sextets of a 24-bit value put it back together. *)
Lemma sextets_sum (v : Z) :
  0 <= v < 16777216 ->
  Z.land (Z.shiftr v 18) 63 * 262144 + Z.land (Z.shiftr v 12) 63 * 4096
  + Z.land (Z.shiftr v 6) 63 * 64 + Z.land v 63 = v.
Proof.
  intros Hv. rewrite !sextet by lia. rewrite low_sextet.
  change (2 ^ 18) with 262144. change (2 ^ 12) with 4096.
  change (2 ^ 6) with 64.
  Z.div_mod_to_equations. lia.
Qed.

Lemma sextets_sum3 (v : Z) :
  0 <= v < 16777216 -> v mod 64 = 0 ->
  Z.land (Z.shiftr v 18) 63 * 262144 + Z.land (Z.shiftr v 12) 63 * 4096
  + Z.land (Z.shiftr v 6) 63 * 64 + 0 = v.
Proof.
  intros Hv Hlow. rewrite <- (sextets_sum v) at 4 by lia.
  rewrite (low_sextet v), Hlow. reflexivity.
Qed.

Lemma sextets_sum2 (v : Z) :
  0 <= v < 16777216 -> v mod 4096 = 0 ->
  Z.land (Z.shiftr v 18) 63 * 262144 + Z.land (Z.shiftr v 12) 63 * 4096
  + 0 * 64 + 0 = v.
Proof.
  intros Hv Hlow. rewrite <- (sextets_sum3 v) at 3;
    [|lia|Z.div_mod_to_equations; lia].
  rewrite (sextet v 6) by lia. change (2 ^ 6) with 64.
  replace (v / 64 mod 64) with 0 by (Z.div_mod_to_equations; lia).
  reflexivity.
Qed.

Lemma quantum_full (b0 b1 b2 : byte) :
  let val := Z.lor (Z.lor (Z.shiftl (Bytes.to_Z b0) 16)
                          (Z.shiftl (Bytes.to_Z b1) 8))
                   (Bytes.to_Z b2) in
  Base64.quantum_bytes
    [Z.land (Z.shiftr val 18) 63; Z.land (Z.shiftr val 12) 63;
     Z.land (Z.shiftr val 6) 63; Z.land val 63]
  = [b0; b1; b2].
Proof.
  intros val. unfold Base64.quantum_bytes.
  cbn [nth length Nat.sub take].
  pose proof (to_Z_range b0) as H0. pose proof (to_Z_range b1) as H1.
  pose proof (to_Z_range b2) as H2.
  assert (val = Bytes.to_Z b0 * 65536 + Bytes.to_Z b1 * 256 + Bytes.to_Z b2)
    as Hval by (apply val_of_bytes; assumption).
  rewrite val_of_sextets
    by (try apply sextet_range; apply low_sextet_range).
  rewrite sextets_sum by lia.
  rewrite !Z.shiftr_div_pow2 by lia.
  change (2 ^ 16) with 65536. change (2 ^ 8) with 256.
  f_equal; [|f_equal; [|f_equal]]; apply of_Z_mod; rewrite Hval;
    Z.div_mod_to_equations; lia.
Qed.

Lemma quantum_two (b0 b1 : byte) :
  let val := Z.lor (Z.shiftl (Bytes.to_Z b0) 16)
                   (Z.shiftl (Bytes.to_Z b1) 8) in
  Base64.quantum_bytes
    [Z.land (Z.shiftr val 18) 63; Z.land (Z.shiftr val 12) 63;
     Z.land (Z.shiftr val 6) 63]
  = [b0; b1].
Proof.
  intros val. unfold Base64.quantum_bytes.
  cbn [nth length Nat.sub take].
  pose proof (to_Z_range b0) as H0. pose proof (to_Z_range b1) as H1.
  assert (val = Bytes.to_Z b0 * 65536 + Bytes.to_Z b1 * 256 + 0) as Hval.
  { unfold val. rewrite <- (val_of_bytes _ _ 0) by lia.
    rewrite Z.lor_0_r. reflexivity. }
  rewrite val_of_sextets by (try apply sextet_range; lia).
  rewrite sextets_sum3 by (rewrite Hval; Z.div_mod_to_equations; lia).
  rewrite !Z.shiftr_div_pow2 by lia.
  change (2 ^ 16) with 65536. change (2 ^ 8) with 256.
  f_equal; [|f_equal]; apply of_Z_mod; rewrite Hval;
    Z.div_mod_to_equations; lia.
Qed.

Lemma quantum_one (b0 : byte) :
  let val := Z.shiftl (Bytes.to_Z b0) 16 in
  Base64.quantum_bytes
    [Z.land (Z.shiftr val 18) 63; Z.land (Z.shiftr val 12) 63]
  = [b0].
Proof.
  intros val. unfold Base64.quantum_bytes.
  cbn [nth length Nat.sub take].
  pose proof (to_Z_range b0) as H0.
  assert (val = Bytes.to_Z b0 * 65536) as Hval
    by (unfold val; rewrite Z.shiftl_mul_pow2 by lia; reflexivity).
  rewrite val_of_sextets by (try apply sextet_range; lia).
  rewrite sextets_sum2 by (rewrite Hval; Z.div_mod_to_equations; lia).
  rewrite !Z.shiftr_div_pow2 by lia.
  change (2 ^ 16) with 65536.
  f_equal; apply of_Z_mod; rewrite Hval; Z.div_mod_to_equations; lia.
Qed.

(** The decode table inverts the alphabet. *)
Lemma decodeMap_encode (i : Z) :
  0 <= i < 64 -> Base64.decodeMap (Base64.encode i) = i.
Proof.
  intros Hi.
  assert (forallb (fun n : nat =>
                     Base64.decodeMap (Base64.encode (Z.of_nat n))
                     =? Z.of_nat n) (seq 0 64) = true) as Hall
    by (vm_compute; reflexivity).
  rewrite forallb_forall in Hall.
  specialize (Hall (Z.to_nat i)).
  rewrite Z2Nat.id in Hall by lia.
  apply Z.eqb_eq, Hall, in_seq. lia.
Qed.

(** The delimiter is not a letter of the alphabet. *)
Lemma encode_not_delimiter (i : Z) :
  0 <= i < 64 -> Base64.encode i <> "*"%byte.
Proof.
  intros Hi Heq. pose proof (decodeMap_encode i Hi) as Hd.
  rewrite Heq in Hd. vm_compute in Hd. lia.
Qed.

Lemma list_ind3 {A} (P : list A -> Prop) :
  P [] -> (forall a, P [a]) -> (forall a b, P [a; b]) ->
  (forall a b c l, P l -> P (a :: b :: c :: l)) ->
  forall l, P l.
Proof.
  intros H0 H1 H2 H3 l.
  enough (P l /\ (forall a, P (a :: l)) /\ (forall a b, P (a :: b :: l)))
    by tauto.
  induction l as [|x l (IH0 & IH1 & IH2)]; auto.
Qed.

(** One alphabet letter read by the decoder. *)
Lemma decode_from_letter (i : Z) (rest : list byte) (si : Z)
    (dbuf : list Z) :
  0 <= i < 64 ->
  Base64.decode_from (Base64.encode i :: rest) si dbuf =
  if (length (dbuf ++ [i]) =? 4)%nat then
    match Base64.decode_from rest (si + 1) [] with
    | inl bs => inl (Base64.quantum_bytes (dbuf ++ [i]) ++ bs)
    | inr e => inr e
    end
  else Base64.decode_from rest (si + 1) (dbuf ++ [i]).
Proof.
  intros Hi. cbn [Base64.decode_from]. rewrite decodeMap_encode by exact Hi.
  destruct (Z.eqb_spec i 255); [lia|]. reflexivity.
Qed.

(** Decoding what [Encode] wrote gives the source back. *)
Lemma decode_Encode (src : list byte) (si : Z) :
  Base64.decode_from (Base64.Encode src) si [] = inl src.
Proof.
  revert si. induction src as [|a|a b|a b c l IH] using list_ind3;
    intros si.
  - reflexivity.
  - cbn [Base64.Encode].
    rewrite !decode_from_letter by apply sextet_range.
    cbn [app length Nat.eqb Base64.decode_from].
    f_equal. apply quantum_one.
  - cbn [Base64.Encode].
    rewrite !decode_from_letter by apply sextet_range.
    cbn [app length Nat.eqb Base64.decode_from].
    f_equal. apply quantum_two.
  - cbn [Base64.Encode].
    rewrite !decode_from_letter
      by (try apply sextet_range; apply low_sextet_range).
    cbn [app length Nat.eqb]. rewrite IH. f_equal.
    rewrite quantum_full. reflexivity.
Qed.

Lemma Encode_no_delimiter (src : list byte) :
  "*"%byte ∉ Base64.Encode src.
Proof.
  induction src as [|a|a b|a b c l IH] using list_ind3;
    cbn [Base64.Encode];
    repeat (apply not_elem_of_cons; split;
            [intros Heq; symmetry in Heq; revert Heq;
             apply encode_not_delimiter;
             try apply sextet_range; apply low_sextet_range|]);
    try apply not_elem_of_nil; exact IH.
Qed.

Lemma len_Encode (src : list byte) :
  Bytes.len (Base64.Encode src) = Base64.EncodedLen (Bytes.len src).
Proof.
  unfold Bytes.len.
  induction src as [|a|a b|a b c l IH] using list_ind3;
    try reflexivity.
  cbn [Base64.Encode length]. rewrite !Nat2Z.inj_succ, IH.
  unfold Base64.EncodedLen. Z.div_mod_to_equations. lia.
Qed.

Lemma DecodedLen_EncodedLen (n : Z) :
  0 <= n -> Base64.DecodedLen (Base64.EncodedLen n) = n.
Proof.
  intros Hn. unfold Base64.DecodedLen, Base64.EncodedLen.
  Z.div_mod_to_equations. lia.
Qed.

(** [Decode] into a buffer of [DecodedLen] bytes, on what [Encode] wrote:
    the buffer is exactly the source. *)
Lemma Decode_Encode (src : list byte) :
  Base64.Decode
    (Bytes.make (Base64.DecodedLen (Bytes.len (Base64.Encode src))))
    (Base64.Encode src)
  = inl (src, Bytes.len src).
Proof.
  unfold Base64.Decode. rewrite decode_Encode, len_Encode.
  rewrite DecodedLen_EncodedLen by apply len_nonneg.
  rewrite copy_at_whole; [reflexivity|].
  unfold Bytes.make, Bytes.len. rewrite length_replicate. lia.
Qed.

Lemma decode_from_cons (c : byte) (rest : list byte) (si : Z)
    (dbuf : list Z) :
  Base64.decode_from (c :: rest) si dbuf =
  if negb (Base64.decodeMap c =? 255) then
    if (length (dbuf ++ [Base64.decodeMap c]) =? 4)%nat then
      match Base64.decode_from rest (si + 1) [] with
      | inl bs =>
          inl (Base64.quantum_bytes (dbuf ++ [Base64.decodeMap c]) ++ bs)
      | inr e => inr e
      end
    else Base64.decode_from rest (si + 1) (dbuf ++ [Base64.decodeMap c])
  else if Byte.eqb c x0a || Byte.eqb c x0d then
    Base64.decode_from rest (si + 1) dbuf
  else inr si.
Proof. reflexivity. Qed.

(** A source the decoder accepts holds no delimiter. *)
Lemma decode_from_no_delimiter (src : list byte) (si : Z) (dbuf : list Z)
    (bs : list byte) :
  Base64.decode_from src si dbuf = inl bs -> "*"%byte ∉ src.
Proof.
  revert si dbuf bs. induction src as [|c rest IH]; intros si dbuf bs H.
  - apply not_elem_of_nil.
  - rewrite decode_from_cons in H.
    apply not_elem_of_cons.
    destruct (Z.eqb_spec (Base64.decodeMap c) 255) as [E|E];
      cbn [negb] in H.
    + destruct (Byte.eqb c x0a || Byte.eqb c x0d) eqn:Enl; [|discriminate].
      split; [|eapply IH; exact H].
      intros Hc. subst c. vm_compute in Enl. discriminate.
    + split; [intros Hc; subst c; apply E; vm_compute; reflexivity|].
      destruct (length (dbuf ++ [Base64.decodeMap c]) =? 4)%nat.
      * destruct (Base64.decode_from rest (si + 1) []) eqn:Er;
          [|discriminate].
        eapply IH; exact Er.
      * eapply IH; exact H.
Qed.
End Base64Facts.

(** ** service.go: buffers and framing *)

Section Framing.

Import service.

(** Lines 177-180: the prefix buffer once filled. *)
Lemma prefix_buffer (enc : list byte) (d : byte) :
  let prefix := Bytes.make (Bytes.len enc + 2) in
  let prefix := Bytes.copy_at 1 prefix enc in
  let prefix := Bytes.set prefix 0 d in
  Bytes.set prefix (Bytes.len prefix - 1) d = d :: enc ++ [d].
Proof.
  cbv zeta. unfold Bytes.make, Bytes.set, Bytes.len.
  replace (Z.to_nat (Z.of_nat (length enc) + 2)) with (S (length enc + 1))
    by lia.
  rewrite copy_at_fits
    by (unfold Bytes.len; rewrite ?length_replicate; lia).
  change (Z.to_nat 1) with 1%nat. change (Z.to_nat 0) with 0%nat.
  cbn [replicate take]. rewrite take_0.
  replace (1 + length enc)%nat with (S (length enc)) by lia.
  cbn [drop app]. rewrite drop_replicate.
  replace (length enc + 1 - length enc)%nat with 1%nat by lia.
  cbn [replicate list_insert].
  change (<[0%nat:=d]> (x00 :: enc ++ [x00])) with (d :: enc ++ [x00]).
  cbn [length]. rewrite length_app. cbn [length].
  replace (Z.to_nat (Z.of_nat (S (length enc + 1)) - 1))
    with (S (length enc + 0)) by lia.
  change (S (length enc + 0)) with (length (d :: enc) + 0)%nat.
  change (d :: enc ++ [x00]) with ((d :: enc) ++ [x00]).
  rewrite insert_app_r. reflexivity.
Qed.

(** Lines 182-184: the prefix followed by the cipher output. *)
Lemma ciphertext_buffer (prefix encrypted : list byte) :
  let ciphertext := Bytes.make (Bytes.len prefix + Bytes.len encrypted) in
  let ciphertext := Bytes.copy_at 0 ciphertext prefix in
  Bytes.copy_at (Bytes.len prefix) ciphertext encrypted
  = prefix ++ encrypted.
Proof.
  cbv zeta.
  assert (Bytes.copy_at 0
            (Bytes.make (Bytes.len prefix + Bytes.len encrypted)) prefix
          = prefix ++ replicate (length encrypted) x00) as ->.
  { rewrite copy_at_fits
      by (rewrite ?len_make; pose proof (len_nonneg prefix);
          pose proof (len_nonneg encrypted); lia).
    unfold Bytes.make, Bytes.len. change (Z.to_nat 0) with 0%nat.
    rewrite take_0, drop_replicate. cbn [app]. do 2 f_equal. lia. }
  rewrite copy_at_fits
    by (rewrite ?len_app; unfold Bytes.len; rewrite ?length_replicate; lia).
  unfold Bytes.len. rewrite Nat2Z.id.
  rewrite take_app_length, drop_ge
    by (rewrite length_app, length_replicate; lia).
  rewrite app_nil_r. reflexivity.
Qed.

(** [Encrypt] with a registered cipher: the frame around whatever bytes the
    cipher returned, a nil error, one cipher call, and a log entry when the
    cipher failed. *)
Lemma Encrypt_registered (s : Service) (payload : list byte)
    (secret : string) (cipher : encryption.Cipher) :
  ciphers s !! configuredAlgorithm (settingsProvider s) = Some cipher ->
  Encrypt s payload secret =
  (frame (configuredAlgorithm (settingsProvider s))
         (fst (encryption.Encrypt cipher payload secret)), None,
   CipherCall (configuredAlgorithm (settingsProvider s)) payload secret
   :: failure_log "Encryption failed"
                  (snd (encryption.Encrypt cipher payload secret))).
Proof.
  intros Hc. unfold Encrypt. rewrite Hc.
  destruct (encryption.Encrypt cipher payload secret) as [encrypted err].
  cbv beta iota zeta delta [bind].
  unfold Base64.Encode_at. rewrite <- len_Encode.
  rewrite prefix_buffer, ciphertext_buffer.
  unfold frame. cbn [app fst snd]. rewrite <- app_assoc.
  destruct err; reflexivity.
Qed.

Lemma Encrypt_unregistered (s : Service) (payload : list byte)
    (secret : string) :
  ciphers s !! configuredAlgorithm (settingsProvider s) = None ->
  Encrypt s payload secret =
  let err :=
    errorString ("no cipher available for algorithm '"
                 +:+ configuredAlgorithm (settingsProvider s) +:+ "'") in
  ([], Some err, failure_log "Encryption failed" (Some err)).
Proof. intros Hc. unfold Encrypt. rewrite Hc. reflexivity. Qed.

End Framing.

(** ** service.go: parsing the frame *)

Section Parsing.

Import service.

Lemma derive_empty :
  deriveEncryptionAlgorithm [] =
  (""%string, [], Some (errorString "unable to derive encryption algorithm")).
Proof. reflexivity. Qed.

(** Line 133: no leading delimiter. *)
Lemma derive_legacy (c : byte) (rest : list byte) :
  c <> "*"%byte ->
  deriveEncryptionAlgorithm (c :: rest) = (encryption.AesCfb, c :: rest, None).
Proof.
  intros Hc. unfold deriveEncryptionAlgorithm.
  unfold Bytes.len. cbn [length nth].
  destruct (Z.eqb_spec (Z.of_nat (S (length rest))) 0) as [E|_]; [lia|].
  apply byte_eqb_neq in Hc. unfold encryptionAlgorithmDelimiter.
  rewrite Hc. reflexivity.
Qed.

(** Line 139: a leading delimiter and no other. *)
Lemma derive_single (rest : list byte) :
  "*"%byte ∉ rest ->
  deriveEncryptionAlgorithm ("*"%byte :: rest)
  = (encryption.AesCfb, rest, None).
Proof.
  intros Hr. unfold deriveEncryptionAlgorithm.
  unfold Bytes.len. cbn [length nth].
  destruct (Z.eqb_spec (Z.of_nat (S (length rest))) 0) as [E|_]; [lia|].
  change (Byte.eqb "*" encryptionAlgorithmDelimiter) with true.
  cbn [negb]. change (Bytes.from ("*"%byte :: rest) 1) with rest.
  apply IndexByte_absent in Hr. unfold encryptionAlgorithmDelimiter.
  rewrite Hr. reflexivity.
Qed.

(** Lines 143-153: two delimiters around a segment free of delimiters. *)
Lemma derive_frame (b64 rest : list byte) :
  "*"%byte ∉ b64 ->
  deriveEncryptionAlgorithm ("*"%byte :: b64 ++ "*"%byte :: rest) =
  match Base64.Decode (Bytes.make (Base64.DecodedLen (Bytes.len b64))) b64
  with
  | inr off => (""%string, [], Some (CorruptInputError off))
  | inl (algorithm, _) => (string_of_list_byte algorithm, rest, None)
  end.
Proof.
  intros Hb. unfold deriveEncryptionAlgorithm.
  unfold Bytes.len at 1. cbn [length nth].
  destruct (Z.eqb_spec (Z.of_nat (S (length (b64 ++ "*"%byte :: rest)))) 0)
    as [E|_]; [lia|].
  change (Byte.eqb "*" encryptionAlgorithmDelimiter) with true.
  cbn [negb].
  change (Bytes.from ("*"%byte :: b64 ++ "*"%byte :: rest) 1)
    with (b64 ++ "*"%byte :: rest).
  unfold encryptionAlgorithmDelimiter.
  rewrite (IndexByte_app b64 rest "*" Hb).
  pose proof (len_nonneg b64) as Hl.
  destruct (Z.eqb_spec (Bytes.len b64) (-1)) as [E|_]; [lia|].
  unfold Bytes.upto, Bytes.from.
  replace (Z.to_nat (Bytes.len b64)) with (length b64)
    by (unfold Bytes.len; lia).
  replace (Z.to_nat (Bytes.len b64 + 1)) with (S (length b64))
    by (unfold Bytes.len; lia).
  rewrite take_app_length.
  replace (drop (S (length b64)) (b64 ++ "*"%byte :: rest)) with rest
    by (rewrite (cons_middle "*"%byte b64 rest), app_assoc, drop_app_length';
        [reflexivity|rewrite length_app; simpl; lia]).
  reflexivity.
Qed.

(** The frame [Encrypt] builds is parsed back to its two parts. *)
Lemma derive_built_frame (algorithm : string) (raw : list byte) :
  deriveEncryptionAlgorithm (frame algorithm raw) = (algorithm, raw, None).
Proof.
  unfold frame. rewrite derive_frame by apply Encode_no_delimiter.
  rewrite Decode_Encode, string_of_list_byte_of_string. reflexivity.
Qed.

End Parsing.

(** ** Error messages *)

Section Messages.

Lemma prefix_append (a b : string) : String.prefix a (a +:+ b) = true.
Proof.
  induction a as [|c a IH].
  - destruct b; reflexivity.
  - change (String c a +:+ b) with (String c (a +:+ b)).
    cbn [String.prefix].
    destruct (Ascii.ascii_dec c c) as [_|Hne]; [exact IH|congruence].
Qed.

Lemma contains_prefix (s sub : string) :
  String.prefix sub s = true -> contains s sub = true.
Proof. intros H. destruct s; cbn [contains]; rewrite H; reflexivity. Qed.

Lemma contains_append (pre s sub : string) :
  contains s sub = true -> contains (pre +:+ s) sub = true.
Proof.
  intros H. induction pre as [|c pre IH]; [exact H|].
  change (String c pre +:+ s) with (String c (pre +:+ s)).
  cbn [contains]. rewrite IH.
  destruct (String.prefix sub (String c (pre +:+ s))); reflexivity.
Qed.

(** The unavailable-algorithm errors carry the identifier. *)
Lemma UnavailableDecipherError_names (algorithm : string) :
  names (UnavailableDecipherError algorithm) algorithm = true.
Proof.
  unfold names, UnavailableDecipherError, Error.
  apply contains_append, contains_prefix, prefix_append.
Qed.

End Messages.

(** ** service.go: dispatch *)

Section Dispatch.

Import service.

Variable s : Service.

(** [Decrypt] once the frame is parsed: the lookup decides. *)
Lemma Decrypt_derived (payload : list byte) (secret algorithm : string)
    (toDecrypt : list byte) :
  deriveEncryptionAlgorithm payload = (algorithm, toDecrypt, None) ->
  Decrypt s payload secret =
  match deciphers s !! algorithm with
  | None =>
      ([], Some (UnavailableDecipherError algorithm),
       failure_log "Decryption failed"
                   (Some (UnavailableDecipherError algorithm)))
  | Some decipher =>
      (encryption.Decrypt decipher toDecrypt secret,
       DecipherCall algorithm toDecrypt secret
       :: failure_log "Decryption failed"
            (snd (encryption.Decrypt decipher toDecrypt secret)))
  end.
Proof.
  intros Hd. unfold Decrypt. rewrite Hd.
  destruct (deciphers s !! algorithm) as [decipher|]; [|reflexivity].
  destruct (encryption.Decrypt decipher toDecrypt secret) as [dec [e|]];
    reflexivity.
Qed.

(** [Decrypt] when the frame cannot be parsed. *)
Lemma Decrypt_underived (payload : list byte) (secret algorithm : string)
    (toDecrypt : list byte) (e : error) :
  deriveEncryptionAlgorithm payload = (algorithm, toDecrypt, Some e) ->
  Decrypt s payload secret =
  ([], Some e, failure_log "Decryption failed" (Some e)).
Proof. intros Hd. unfold Decrypt. rewrite Hd. reflexivity. Qed.

Lemma decipher_calls_failure_log (msg : string) (err : option error) :
  decipher_calls (failure_log msg err) = [].
Proof. destruct err; reflexivity. Qed.

End Dispatch.

(** ** service.go: the loops over a map *)

Section Batch.

Import service.

Lemma value_bind {A B} (m : M A) (k : A -> M B) :
  value (bind m k) = value (k (value m)).
Proof.
  unfold value, bind. destruct m as [a t1]. cbn [fst].
  destruct (k a) as [b t2]. reflexivity.
Qed.

(** The map a loop builds from distinct keys, starting from [acc]. *)
Lemma collected_insert {B} (k : string) (x : B) (l : list (string * B))
    (acc : gmap string B) :
  k ∉ l.*1 ->
  list_to_map l ∪ <[k:=x]> acc
  = (list_to_map ((k, x) :: l) : gmap string B) ∪ acc.
Proof.
  intros Hk. cbn [list_to_map foldr fst snd].
  rewrite <- insert_union_l.
  rewrite insert_union_r by (apply not_elem_of_list_to_map_1; exact Hk).
  reflexivity.
Qed.

Lemma keys_prod_map {V B} (g : V -> B) (l : list (string * V)) :
  (prod_map id g <$> l).*1 = l.*1.
Proof.
  induction l as [|[k v] l IH]; [reflexivity|].
  cbn. f_equal. exact IH.
Qed.

Lemma EncryptJsonData_range_value (s : Service) (secret : string)
    (entries : list (string * string)) (acc : gmap string (list byte)) :
  NoDup entries.*1 ->
  value (EncryptJsonData_range s entries secret acc) =
  match first_error (fun v => Encrypt s (list_byte_of_string v) secret)
                    entries with
  | Some e => (∅, Some e)
  | None =>
      (list_to_map
         (prod_map id
            (fun v => fst (value (Encrypt s (list_byte_of_string v) secret)))
            <$> entries) ∪ acc, None)
  end.
Proof.
  revert acc. induction entries as [|[k v] rest IH]; intros acc Hnd.
  - cbn. rewrite (left_id_L ∅ (∪)). reflexivity.
  - apply NoDup_cons in Hnd as [Hk Hnd].
    cbn [EncryptJsonData_range first_error]. rewrite value_bind.
    destruct (value (Encrypt s (list_byte_of_string v) secret))
      as [ed [e|]] eqn:Hv; cbn [snd fst]; [reflexivity|].
    rewrite (IH _ Hnd).
    destruct (first_error _ rest); [reflexivity|].
    f_equal. cbn [fmap list_fmap prod_map fst snd id].
    rewrite Hv. cbn [fst].
    apply collected_insert. rewrite keys_prod_map. exact Hk.
Qed.

Lemma DecryptJsonData_range_value (s : Service) (secret : string)
    (entries : list (string * list byte)) (acc : gmap string string) :
  NoDup entries.*1 ->
  value (DecryptJsonData_range s entries secret acc) =
  match first_error (fun d => Decrypt s d secret) entries with
  | Some e => (∅, Some e)
  | None =>
      (list_to_map
         (prod_map id
            (fun d => string_of_list_byte
                        (fst (value (Decrypt s d secret))))
            <$> entries) ∪ acc, None)
  end.
Proof.
  revert acc. induction entries as [|[k d] rest IH]; intros acc Hnd.
  - cbn. rewrite (left_id_L ∅ (∪)). reflexivity.
  - apply NoDup_cons in Hnd as [Hk Hnd].
    cbn [DecryptJsonData_range first_error]. rewrite value_bind.
    destruct (value (Decrypt s d secret)) as [dd [e|]] eqn:Hv;
      cbn [snd fst]; [reflexivity|].
    rewrite (IH _ Hnd).
    destruct (first_error _ rest); [reflexivity|].
    f_equal. cbn [fmap list_fmap prod_map fst snd id].
    rewrite Hv. cbn [fst].
    apply collected_insert. rewrite keys_prod_map. exact Hk.
Qed.

(** Whatever the order, the entries of a map collect to its image. *)
Lemma collected_range {V B} (g : V -> B) (kv : gmap string V)
    (entries : list (string * V)) :
  range_order kv entries ->
  NoDup entries.*1
  /\ (list_to_map (prod_map id g <$> entries) : gmap string B) = g <$> kv.
Proof.
  unfold range_order. intros Hperm.
  assert (NoDup entries.*1) as Hnd
    by (rewrite Hperm; apply NoDup_fst_map_to_list).
  split; [exact Hnd|].
  rewrite list_to_map_fmap. f_equal.
  rewrite (list_to_map_proper entries (map_to_list kv) Hnd Hperm).
  apply list_to_map_to_list.
Qed.

Lemma first_error_None {V A} (f : V -> M (A * option error))
    (entries : list (string * V)) :
  first_error f entries = None
  <-> Forall (fun kv => snd (value (f (snd kv))) = None) entries.
Proof.
  induction entries as [|[k v] rest IH]; cbn [first_error].
  - split; [intros _; constructor | reflexivity].
  - destruct (snd (value (f v))) as [e|] eqn:He.
    + split; [discriminate|]. intros H. inversion H as [|? ? Hv _].
      cbn [snd] in Hv. congruence.
    + rewrite IH. split.
      * intros H. constructor; [exact He | exact H].
      * intros H. inversion H. assumption.
Qed.

(** A batch that succeeds in one order succeeds, with the same map, in
    every order. *)
Lemma batch_any_order {V A B} (f : V -> M (A * option error))
    (post : A -> B) (kv : gmap string V)
    (entries entries' : list (string * V)) (m : gmap string B) :
  range_order kv entries -> range_order kv entries' ->
  batch f post kv entries = (m, None) ->
  batch f post kv entries' = (m, None).
Proof.
  unfold range_order, batch. intros Hr Hr' Hb.
  destruct (first_error f entries) eqn:Hf; [discriminate|].
  apply first_error_None in Hf.
  assert (first_error f entries' = None) as ->; [|exact Hb].
  apply first_error_None.
  refine (Permutation_Forall _ Hf). rewrite Hr, Hr'. reflexivity.
Qed.

End Batch.

(** ** The claims *)

Section Claims.

Import service.

(** C1. Round trip: when the configured algorithm has a cipher and a
    decipher registered and the decipher, run on what the cipher returned
    for payload [p] under [secret], gives [p] back, then [Encrypt] builds
    the frame of the configured algorithm around the cipher output, the
    base64 segment of that frame holds no delimiter, [Decrypt] parses the
    frame back to the same algorithm identifier and the same cipher
    output, and [Decrypt] of [Encrypt]'s result returns [p] with a nil
    error. *)
Theorem Decrypt_Encrypt_roundtrip (s : Service) (p : list byte)
    (secret : string) (cipher : encryption.Cipher)
    (decipher : encryption.Decipher) :
  let a := configuredAlgorithm (settingsProvider s) in
  let raw := fst (encryption.Encrypt cipher p secret) in
  ciphers s !! a = Some cipher ->
  deciphers s !! a = Some decipher ->
  encryption.Decrypt decipher raw secret = (p, None) ->
  value (Encrypt s p secret) = (frame a raw, None)
  /\ ("*"%byte ∉ Base64.Encode (list_byte_of_string a))
  /\ deriveEncryptionAlgorithm (frame a raw) = (a, raw, None)
  /\ value (Decrypt s (fst (value (Encrypt s p secret))) secret) = (p, None).
Proof.
  intros a raw Hc Hd Hrt.
  rewrite (Encrypt_registered s p secret cipher Hc).
  unfold value. cbn [fst]. fold a raw.
  split; [reflexivity|]. split; [apply Encode_no_delimiter|].
  split; [apply derive_built_frame|].
  rewrite (Decrypt_derived s _ secret a raw (derive_built_frame a raw)).
  rewrite Hd. cbn [fst]. exact Hrt.
Qed.

Lemma Decrypt_Encrypt_roundtrip_witness :
  let s := sample.aesOnly in
  let p := sample.hello in
  (ciphers s !! configuredAlgorithm (settingsProvider s)
   = Some sample.tagCipher)
  /\ (deciphers s !! configuredAlgorithm (settingsProvider s)
      = Some sample.tagDecipher)
  /\ encryption.Decrypt sample.tagDecipher
       (fst (encryption.Encrypt sample.tagCipher p "k")) "k" = (p, None)
  /\ value (Decrypt s (fst (value (Encrypt s p "k"))) "k") = (p, None).
Proof.
  cbv zeta.
  assert (ciphers sample.aesOnly
            !! configuredAlgorithm (settingsProvider sample.aesOnly)
          = Some sample.tagCipher) as Hc by reflexivity.
  assert (deciphers sample.aesOnly
            !! configuredAlgorithm (settingsProvider sample.aesOnly)
          = Some sample.tagDecipher) as Hd by reflexivity.
  assert (encryption.Decrypt sample.tagDecipher
            (fst (encryption.Encrypt sample.tagCipher sample.hello "k"))
            "k" = (sample.hello, None)) as Hrt by reflexivity.
  split; [exact Hc|]. split; [exact Hd|]. split; [exact Hrt|].
  exact (proj2 (proj2 (proj2
           (Decrypt_Encrypt_roundtrip sample.aesOnly sample.hello "k"
              sample.tagCipher sample.tagDecipher Hc Hd Hrt)))).
Defined.

(** C2, at a failing input.  The "aes-cfb" cipher fails with "cipher
    failure" on payload "hello" and secret "k": [Encrypt] logs the failure
    and returns the bare framing prefix with a nil error. *)
Theorem Encrypt_drops_cipher_error :
  encryption.Encrypt sample.failingCipher sample.hello "k"
  = ([], Some (errorString "cipher failure"))
  /\ Encrypt sample.failing sample.hello "k"
     = (list_byte_of_string "*YWVzLWNmYg*", None,
        [CipherCall "aes-cfb" sample.hello "k";
         LogError "Encryption failed"
                  [("error", LError (errorString "cipher failure"))]]).
Proof. split; reflexivity. Qed.

(** C3. [Decrypt] of a zero-length ciphertext fails with the
    empty-input error, writes one log entry and calls no decipher. *)
Theorem Decrypt_empty (s : Service) (secret : string) :
  value (Decrypt s [] secret) = ([], Some EmptyInputError)
  /\ trace (Decrypt s [] secret)
     = [LogError "Decryption failed" [("error", LError EmptyInputError)]]
  /\ decipher_calls (trace (Decrypt s [] secret)) = [].
Proof. repeat split. Qed.

(** C4. Legacy fallback, with [decipher] the decipher registered for the
    default algorithm "aes-cfb".  A non-empty ciphertext whose first byte
    is not the delimiter is handed to [decipher] whole and unchanged; a
    ciphertext that starts with the delimiter and holds no second one is
    handed to [decipher] without its first byte.  In both cases this is
    the only decipher call, and [Decrypt] returns what [decipher]
    returned. *)
Theorem Decrypt_legacy (s : Service) (secret : string)
    (decipher : encryption.Decipher) :
  deciphers s !! encryption.AesCfb = Some decipher ->
  (forall (c : byte) (rest : list byte),
      c <> "*"%byte ->
      value (Decrypt s (c :: rest) secret)
      = encryption.Decrypt decipher (c :: rest) secret
      /\ decipher_calls (trace (Decrypt s (c :: rest) secret))
         = [DecipherCall "aes-cfb" (c :: rest) secret])
  /\ (forall rest : list byte,
         "*"%byte ∉ rest ->
         value (Decrypt s ("*"%byte :: rest) secret)
         = encryption.Decrypt decipher rest secret
         /\ decipher_calls (trace (Decrypt s ("*"%byte :: rest) secret))
            = [DecipherCall "aes-cfb" rest secret]).
Proof.
  intros Hd. split.
  - intros c rest Hc.
    rewrite (Decrypt_derived s _ secret _ _ (derive_legacy c rest Hc)), Hd.
    unfold value, trace. cbn [fst snd]. split; [reflexivity|].
    unfold decipher_calls. cbn [List.filter is_decipher_call].
    fold (decipher_calls
            (failure_log "Decryption failed"
               (snd (encryption.Decrypt decipher (c :: rest) secret)))).
    rewrite decipher_calls_failure_log. reflexivity.
  - intros rest Hr.
    rewrite (Decrypt_derived s _ secret _ _ (derive_single rest Hr)), Hd.
    unfold value, trace. cbn [fst snd]. split; [reflexivity|].
    unfold decipher_calls. cbn [List.filter is_decipher_call].
    fold (decipher_calls
            (failure_log "Decryption failed"
               (snd (encryption.Decrypt decipher rest secret)))).
    rewrite decipher_calls_failure_log. reflexivity.
Qed.

Lemma Decrypt_legacy_witness :
  (deciphers sample.aesOnly !! encryption.AesCfb = Some sample.tagDecipher)
  /\ decipher_calls
       (trace (Decrypt sample.aesOnly (list_byte_of_string "kabc") "k"))
     = [DecipherCall "aes-cfb" (list_byte_of_string "kabc") "k"]
  /\ decipher_calls
       (trace (Decrypt sample.aesOnly (list_byte_of_string "*kabc") "k"))
     = [DecipherCall "aes-cfb" (list_byte_of_string "kabc") "k"].
Proof.
  assert (deciphers sample.aesOnly !! encryption.AesCfb
          = Some sample.tagDecipher) as Hd by reflexivity.
  pose proof (Decrypt_legacy sample.aesOnly "k" sample.tagDecipher Hd)
    as [Hwhole Hstripped].
  split; [exact Hd|]. split.
  - apply (Hwhole "k"%byte (list_byte_of_string "abc")). discriminate.
  - apply (Hstripped (list_byte_of_string "kabc")).
    apply IndexByte_absent. reflexivity.
Defined.

(** C8. Wire format: with "aes-cfb" configured and its cipher succeeding
    with output [raw], [Encrypt] returns the twelve bytes
    [*YWVzLWNmYg*] followed by [raw], and a nil error. *)
Theorem Encrypt_aes_cfb_wire_format (s : Service) (p : list byte)
    (secret : string) (cipher : encryption.Cipher) (raw : list byte) :
  configuredAlgorithm (settingsProvider s) = "aes-cfb"%string ->
  ciphers s !! "aes-cfb"%string = Some cipher ->
  encryption.Encrypt cipher p secret = (raw, None) ->
  value (Encrypt s p secret)
  = (list_byte_of_string "*YWVzLWNmYg*" ++ raw, None).
Proof.
  intros Ha Hc Hraw. rewrite <- Ha in Hc.
  rewrite (Encrypt_registered s p secret cipher Hc), Ha, Hraw.
  reflexivity.
Qed.

Lemma Encrypt_aes_cfb_wire_format_witness :
  configuredAlgorithm (settingsProvider sample.aesOnly) = "aes-cfb"%string
  /\ (ciphers sample.aesOnly !! "aes-cfb"%string = Some sample.tagCipher)
  /\ encryption.Encrypt sample.tagCipher sample.hello "k"
     = (list_byte_of_string "khello", None)
  /\ value (Encrypt sample.aesOnly sample.hello "k")
     = (list_byte_of_string "*YWVzLWNmYg*khello", None).
Proof.
  assert (configuredAlgorithm (settingsProvider sample.aesOnly)
          = "aes-cfb"%string) as Ha by reflexivity.
  assert (ciphers sample.aesOnly !! "aes-cfb"%string
          = Some sample.tagCipher) as Hc by reflexivity.
  assert (encryption.Encrypt sample.tagCipher sample.hello "k"
          = (list_byte_of_string "khello", None)) as Hraw by reflexivity.
  split; [exact Ha|]. split; [exact Hc|]. split; [exact Hraw|].
  exact (Encrypt_aes_cfb_wire_format sample.aesOnly sample.hello "k"
           sample.tagCipher (list_byte_of_string "khello") Ha Hc Hraw).
Defined.

(** A frame that parses to an algorithm without a decipher. *)
Lemma Decrypt_unavailable (s : Service) (payload : list byte)
    (secret algorithm : string) (toDecrypt : list byte) :
  deriveEncryptionAlgorithm payload = (algorithm, toDecrypt, None) ->
  deciphers s !! algorithm = None ->
  value (Decrypt s payload secret)
  = ([], Some (UnavailableDecipherError algorithm))
  /\ decipher_calls (trace (Decrypt s payload secret)) = [].
Proof.
  intros Hd Hl. rewrite (Decrypt_derived s _ secret _ _ Hd), Hl.
  split; reflexivity.
Qed.

(** C5. Unknown algorithm: a ciphertext made of the delimiter, a base64
    segment that decodes to [algorithm], the delimiter and any rest, when
    no decipher is registered for [algorithm], makes [Decrypt] fail with
    the unavailable-algorithm error, whose message carries [algorithm],
    and no decipher is called.  The segment [Encrypt] writes for
    [algorithm] is such a segment. *)
Theorem Decrypt_unknown_algorithm (s : Service) (b64 rest : list byte)
    (algorithm secret : string) :
  segment_names b64 algorithm ->
  deciphers s !! algorithm = None ->
  value (Decrypt s ("*"%byte :: b64 ++ "*"%byte :: rest) secret)
  = ([], Some (UnavailableDecipherError algorithm))
  /\ names (UnavailableDecipherError algorithm) algorithm = true
  /\ decipher_calls
       (trace (Decrypt s ("*"%byte :: b64 ++ "*"%byte :: rest) secret))
     = []
  /\ segment_names (Base64.Encode (list_byte_of_string algorithm)) algorithm.
Proof.
  intros [n Hseg] Hl.
  assert ("*"%byte ∉ b64) as Hb64.
  { unfold Base64.Decode in Hseg.
    destruct (Base64.decode_from b64 0 []) as [bs|off] eqn:Hdec;
      [|discriminate].
    exact (decode_from_no_delimiter b64 0 [] bs Hdec). }
  assert (deriveEncryptionAlgorithm ("*"%byte :: b64 ++ "*"%byte :: rest)
          = (algorithm, rest, None)) as Hd.
  { rewrite (derive_frame b64 rest Hb64), Hseg.
    rewrite string_of_list_byte_of_string. reflexivity. }
  destruct (Decrypt_unavailable s _ secret _ _ Hd Hl) as [Hv Ht].
  split; [exact Hv|]. split; [apply UnavailableDecipherError_names|].
  split; [exact Ht|].
  exists (Bytes.len (list_byte_of_string algorithm)). apply Decode_Encode.
Qed.

Lemma Decrypt_unknown_algorithm_witness :
  segment_names (list_byte_of_string "eHl6") "xyz"
  /\ (deciphers sample.aesOnly !! "xyz"%string = None)
  /\ value (Decrypt sample.aesOnly (list_byte_of_string "*eHl6*kabc") "k")
     = ([], Some (UnavailableDecipherError "xyz")).
Proof.
  assert (segment_names (list_byte_of_string "eHl6") "xyz") as Hseg
    by (exists 3; reflexivity).
  assert (deciphers sample.aesOnly !! "xyz"%string = None) as Hl
    by reflexivity.
  split; [exact Hseg|]. split; [exact Hl|].
  exact (proj1 (Decrypt_unknown_algorithm sample.aesOnly
                  (list_byte_of_string "eHl6") (list_byte_of_string "kabc")
                  "xyz" "k" Hseg Hl)).
Defined.

(** C10. Two leading delimiters: the ciphertext is parsed as a frame
    whose algorithm identifier is the empty string and whose cipher
    output is what follows the second delimiter; when no decipher is
    registered for the empty string, [Decrypt] fails with the
    unavailable-algorithm error for it and calls no decipher. *)
Theorem Decrypt_empty_identifier (s : Service) (rest : list byte)
    (secret : string) :
  deciphers s !! ""%string = None ->
  deriveEncryptionAlgorithm ("*"%byte :: "*"%byte :: rest)
  = (""%string, rest, None)
  /\ value (Decrypt s ("*"%byte :: "*"%byte :: rest) secret)
     = ([], Some (UnavailableDecipherError ""))
  /\ decipher_calls
       (trace (Decrypt s ("*"%byte :: "*"%byte :: rest) secret)) = [].
Proof.
  intros Hl.
  assert (deriveEncryptionAlgorithm ("*"%byte :: "*"%byte :: rest)
          = (""%string, rest, None)) as Hd
    by (exact (derive_frame [] rest (not_elem_of_nil _))).
  split; [exact Hd|].
  exact (Decrypt_unavailable s _ secret _ _ Hd Hl).
Qed.

Lemma Decrypt_empty_identifier_witness :
  (deciphers sample.aesOnly !! ""%string = None)
  /\ value (Decrypt sample.aesOnly (list_byte_of_string "**kabc") "k")
     = ([], Some (UnavailableDecipherError "")).
Proof.
  assert (deciphers sample.aesOnly !! ""%string = None) as Hl
    by reflexivity.
  split; [exact Hl|].
  exact (proj1 (proj2 (Decrypt_empty_identifier sample.aesOnly
                         (list_byte_of_string "kabc") "k" Hl))).
Defined.

(** C6, as the code has it.  When the configured algorithm lacks a
    cipher or a decipher, construction returns no service and the fixed
    error "no cipher registered for encryption algorithm configured";
    the algorithm identifier is carried by the log entry written before
    returning, not by the error. *)
Theorem ProvideEncryptionService_unregistered
    (provider : encryption.Provider) (sp : setting.Provider) :
  encryption.ProvideCiphers provider !! configuredAlgorithm sp = None
  \/ encryption.ProvideDeciphers provider !! configuredAlgorithm sp = None ->
  value (ProvideEncryptionService provider sp)
  = (None, Some ConfigurationError)
  /\ trace (ProvideEncryptionService provider sp)
     = [LogError "Wrong security encryption configuration"
                 [("algorithm", LString (configuredAlgorithm sp));
                  ("error", LError ConfigurationError)]].
Proof.
  intros H. unfold ProvideEncryptionService, checkEncryptionAlgorithm.
  cbn [settingsProvider ciphers deciphers].
  destruct (encryption.ProvideCiphers provider !! configuredAlgorithm sp)
    as [c|]; [|split; reflexivity].
  destruct H as [H|H]; [discriminate|]. rewrite H. split; reflexivity.
Qed.

Lemma ProvideEncryptionService_unregistered_witness :
  (encryption.ProvideCiphers sample.emptyProvider
     !! configuredAlgorithm sample.unset = None
   \/ encryption.ProvideDeciphers sample.emptyProvider
        !! configuredAlgorithm sample.unset = None)
  /\ value (ProvideEncryptionService sample.emptyProvider sample.unset)
     = (None, Some ConfigurationError).
Proof.
  assert (encryption.ProvideCiphers sample.emptyProvider
            !! configuredAlgorithm sample.unset = None
          \/ encryption.ProvideDeciphers sample.emptyProvider
               !! configuredAlgorithm sample.unset = None) as H
    by (left; reflexivity).
  split; [exact H|].
  exact (proj1 (ProvideEncryptionService_unregistered
                  sample.emptyProvider sample.unset H)).
Defined.

(** C6, as stated, fails: with nothing registered and "aes-cfb"
    configured, the error construction returns does not name "aes-cfb". *)
Lemma ProvideEncryptionService_error_names_no_algorithm :
  ~ (exists e,
        value (ProvideEncryptionService sample.emptyProvider sample.unset)
        = (None, Some e)
        /\ names e (configuredAlgorithm sample.unset) = true).
Proof.
  intros [e [Hv Hn]]. vm_compute in Hv. injection Hv as <-.
  vm_compute in Hn. discriminate.
Qed.

(** C7. [GetDecryptedValue]: an absent key gives the fallback and causes
    no event at all; a present key whose value fails to decrypt gives the
    fallback, the same string as for an absent key; a present key whose
    value decrypts gives the decrypted bytes as a string. *)
Theorem GetDecryptedValue_fallback (s : Service)
    (sjd : gmap string (list byte)) (key fallback secret : string) :
  (sjd !! key = None ->
   GetDecryptedValue s sjd key fallback secret = (fallback, []))
  /\ (forall v e,
         sjd !! key = Some v ->
         snd (value (Decrypt s v secret)) = Some e ->
         value (GetDecryptedValue s sjd key fallback secret) = fallback)
  /\ (forall v decrypted,
         sjd !! key = Some v ->
         value (Decrypt s v secret) = (decrypted, None) ->
         value (GetDecryptedValue s sjd key fallback secret)
         = string_of_list_byte decrypted).
Proof.
  unfold GetDecryptedValue. repeat split.
  - intros ->. reflexivity.
  - intros v e -> He. unfold value in *.
    destruct (Decrypt s v secret) as [[dec err] t]. cbn [fst snd] in He.
    subst err. reflexivity.
  - intros v dec -> Hd. unfold value in *.
    destruct (Decrypt s v secret) as [[dec' err] t]. cbn [fst] in Hd.
    injection Hd as -> ->. reflexivity.
Qed.

Lemma GetDecryptedValue_fallback_witness :
  (sample.secureJson !! "b"%string = None
   /\ GetDecryptedValue sample.aesOnly sample.secureJson "b" "none" "k"
      = ("none"%string, []))
  /\ (sample.secureJson !! "a"%string = Some (list_byte_of_string "kabc")
      /\ snd (value (Decrypt sample.aesOnly (list_byte_of_string "kabc")
                             "wrong"))
         = Some (errorString "wrong secret")
      /\ value (GetDecryptedValue sample.aesOnly sample.secureJson "a"
                                  "none" "wrong") = "none"%string)
  /\ (value (Decrypt sample.aesOnly (list_byte_of_string "kabc") "k")
      = (list_byte_of_string "abc", None)
      /\ value (GetDecryptedValue sample.aesOnly sample.secureJson "a"
                                  "none" "k") = "abc"%string).
Proof.
  assert (sample.secureJson !! "b"%string = None) as Hb by reflexivity.
  assert (sample.secureJson !! "a"%string
          = Some (list_byte_of_string "kabc")) as Ha by reflexivity.
  assert (snd (value (Decrypt sample.aesOnly (list_byte_of_string "kabc")
                              "wrong"))
          = Some (errorString "wrong secret")) as He by reflexivity.
  assert (value (Decrypt sample.aesOnly (list_byte_of_string "kabc") "k")
          = (list_byte_of_string "abc", None)) as Hd by reflexivity.
  split; [split; [exact Hb|]|split; [split; [exact Ha|split; [exact He|]]
                                    |split; [exact Hd|]]].
  - exact (proj1 (GetDecryptedValue_fallback sample.aesOnly
                    sample.secureJson "b" "none" "k") Hb).
  - exact (proj1 (proj2 (GetDecryptedValue_fallback sample.aesOnly
                           sample.secureJson "a" "none" "wrong"))
             _ _ Ha He).
  - exact (proj2 (proj2 (GetDecryptedValue_fallback sample.aesOnly
                           sample.secureJson "a" "none" "k"))
             _ _ Ha Hd).
Defined.

(** C9. Batch helpers are all-or-nothing.  Whatever the order in which
    [range] walks the input map, [EncryptJsonData] returns the error of
    the first entry on which [Encrypt] fails together with an empty map,
    and otherwise the map that sends each key of the input to the
    [Encrypt] result of its value; [DecryptJsonData] does the same with
    [Decrypt], its results converted to strings.  On success the result
    has exactly the keys of the input and is the same in every other
    order. *)
Theorem JsonData_all_or_nothing (s : Service) (secret : string) :
  (forall (kv : gmap string string) (entries : list (string * string)),
      range_order kv entries ->
      value (EncryptJsonData s entries secret)
      = batch (fun v => Encrypt s (list_byte_of_string v) secret) id
              kv entries
      /\ forall m, value (EncryptJsonData s entries secret) = (m, None) ->
                   dom m = dom kv
                   /\ forall entries',
                       range_order kv entries' ->
                       value (EncryptJsonData s entries' secret)
                       = (m, None))
  /\ (forall (sjd : gmap string (list byte))
             (entries : list (string * list byte)),
         range_order sjd entries ->
         value (DecryptJsonData s entries secret)
         = batch (fun d => Decrypt s d secret) string_of_list_byte
                 sjd entries
         /\ forall m, value (DecryptJsonData s entries secret) = (m, None) ->
                      dom m = dom sjd
                      /\ forall entries',
                          range_order sjd entries' ->
                          value (DecryptJsonData s entries' secret)
                          = (m, None)).
Proof.
  assert (forall (kv : gmap string string) entries,
             range_order kv entries ->
             value (EncryptJsonData s entries secret)
             = batch (fun v => Encrypt s (list_byte_of_string v) secret) id
                     kv entries) as Henc.
  { intros kv entries Hr.
    destruct (collected_range
                (fun v => fst (value (Encrypt s (list_byte_of_string v)
                                              secret)))
                kv entries Hr) as [Hnd Hmap].
    unfold EncryptJsonData, batch.
    rewrite (EncryptJsonData_range_value s secret entries ∅ Hnd).
    destruct (first_error _ entries); [reflexivity|].
    rewrite (right_id_L ∅ (∪)), Hmap. reflexivity. }
  assert (forall (sjd : gmap string (list byte)) entries,
             range_order sjd entries ->
             value (DecryptJsonData s entries secret)
             = batch (fun d => Decrypt s d secret) string_of_list_byte
                     sjd entries) as Hdec.
  { intros sjd entries Hr.
    destruct (collected_range
                (fun d => string_of_list_byte
                            (fst (value (Decrypt s d secret))))
                sjd entries Hr) as [Hnd Hmap].
    unfold DecryptJsonData, batch.
    rewrite (DecryptJsonData_range_value s secret entries ∅ Hnd).
    destruct (first_error _ entries); [reflexivity|].
    rewrite (right_id_L ∅ (∪)), Hmap. reflexivity. }
  split.
  - intros kv entries Hr. split; [exact (Henc kv entries Hr)|].
    intros m Hm. rewrite (Henc kv entries Hr) in Hm. split.
    + unfold batch in Hm.
      destruct (first_error _ entries); [discriminate|].
      injection Hm as <-. apply dom_fmap_L.
    + intros entries' Hr'. rewrite (Henc kv entries' Hr').
      exact (batch_any_order _ _ kv entries entries' m Hr Hr' Hm).
  - intros sjd entries Hr. split; [exact (Hdec sjd entries Hr)|].
    intros m Hm. rewrite (Hdec sjd entries Hr) in Hm. split.
    + unfold batch in Hm.
      destruct (first_error _ entries); [discriminate|].
      injection Hm as <-. apply dom_fmap_L.
    + intros entries' Hr'. rewrite (Hdec sjd entries' Hr').
      exact (batch_any_order _ _ sjd entries entries' m Hr Hr' Hm).
Qed.

Lemma JsonData_all_or_nothing_witness :
  range_order sample.plainJson [("b", "2"); ("a", "1")]%string
  /\ value (EncryptJsonData sample.aesOnly
              [("b", "2"); ("a", "1")]%string "k")
     = batch (fun v => Encrypt sample.aesOnly (list_byte_of_string v) "k")
             id sample.plainJson [("b", "2"); ("a", "1")]%string.
Proof.
  assert (range_order sample.plainJson [("b", "2"); ("a", "1")]%string)
    as Hr.
  { unfold range_order.
    replace (map_to_list sample.plainJson)
      with [("a", "1"); ("b", "2")]%string by (vm_compute; reflexivity).
    apply Permutation_swap. }
  split; [exact Hr|].
  exact (proj1 (proj1 (JsonData_all_or_nothing sample.aesOnly "k")
                  sample.plainJson _ Hr)).
Defined.

End Claims.


(** ** Further properties of service.go *)

Section Construction.

Import service.

(** The two outcomes of construction. *)
Lemma construction_outcome (provider : encryption.Provider)
    (sp : setting.Provider) :
  ProvideEncryptionService provider sp =
  match encryption.ProvideCiphers provider !! configuredAlgorithm sp,
        encryption.ProvideDeciphers provider !! configuredAlgorithm sp with
  | Some _, Some _ =>
      (Some {| settingsProvider := sp;
               ciphers := encryption.ProvideCiphers provider;
               deciphers := encryption.ProvideDeciphers provider |}, None,
       [RegisterReloadHandler "security.encryption"; RegisterMetricsFunc])
  | _, _ =>
      (None, Some ConfigurationError,
       [LogError "Wrong security encryption configuration"
                 [("algorithm", LString (configuredAlgorithm sp));
                  ("error", LError ConfigurationError)]])
  end.
Proof.
  unfold ProvideEncryptionService, checkEncryptionAlgorithm.
  cbn [settingsProvider ciphers deciphers].
  destruct (encryption.ProvideCiphers provider !! configuredAlgorithm sp);
    [|reflexivity].
  destruct (encryption.ProvideDeciphers provider !! configuredAlgorithm sp);
    reflexivity.
Qed.

(** X1.  Construction succeeds exactly when the configured algorithm has both a
    cipher and a decipher; the service it then returns holds the provider's
    two registries and the settings provider, nothing is logged, and the
    reload handler and the metrics callback are registered, in this order. *)
Theorem ProvideEncryptionService_registered
    (provider : encryption.Provider) (sp : setting.Provider) :
  (snd (value (ProvideEncryptionService provider sp)) = None
   <-> is_Some (encryption.ProvideCiphers provider !! configuredAlgorithm sp)
       /\ is_Some (encryption.ProvideDeciphers provider
                     !! configuredAlgorithm sp))
  /\ (snd (value (ProvideEncryptionService provider sp)) = None ->
      ProvideEncryptionService provider sp
      = (Some {| settingsProvider := sp;
                 ciphers := encryption.ProvideCiphers provider;
                 deciphers := encryption.ProvideDeciphers provider |}, None,
         [RegisterReloadHandler "security.encryption"; RegisterMetricsFunc])).
Proof.
  rewrite construction_outcome.
  destruct (encryption.ProvideCiphers provider !! configuredAlgorithm sp)
    as [c|];
    [destruct (encryption.ProvideDeciphers provider !! configuredAlgorithm sp)
      as [d|]|].
  - split; [|reflexivity]. split; [intros _; split; eexists; reflexivity|].
    reflexivity.
  - split; [|discriminate]. split; [discriminate|].
    intros [_ [x Hx]]. discriminate.
  - split; [|discriminate]. split; [discriminate|].
    intros [[x Hx] _]. discriminate.
Qed.

Lemma ProvideEncryptionService_registered_witness :
  snd (value (ProvideEncryptionService sample.bothProvider
                (sample.configured "rev"))) = None
  /\ ProvideEncryptionService sample.bothProvider (sample.configured "rev")
     = (Some (sample.both "rev"), None,
        [RegisterReloadHandler "security.encryption"; RegisterMetricsFunc]).
Proof.
  assert (snd (value (ProvideEncryptionService sample.bothProvider
                        (sample.configured "rev"))) = None) as H
    by reflexivity.
  split; [exact H|].
  exact (proj2 (ProvideEncryptionService_registered sample.bothProvider
                  (sample.configured "rev")) H).
Defined.

(** X2.  [Validate] accepts a reloaded section exactly when its algorithm (the
    default when the key is unset) has both a cipher and a decipher; a
    rejected section gives the configuration error and the log entry that
    names the algorithm, after the debug line. *)
Theorem Validate_registered (s : Service) (section : setting.Section) :
  let a := setting.MustString
             (setting.SectionKeyValue section encryptionAlgorithmKey)
             defaultEncryptionAlgorithm in
  (value (Validate s section) = None
   <-> is_Some (ciphers s !! a) /\ is_Some (deciphers s !! a))
  /\ trace (Validate s section)
     = LogDebug "Validating encryption config"
       :: match value (Validate s section) with
          | Some e =>
              [LogError "Wrong security encryption configuration"
                        [("algorithm", LString a); ("error", LError e)]]
          | None => []
          end
  /\ (value (Validate s section) = None
      \/ value (Validate s section) = Some ConfigurationError).
Proof.
  intros a. unfold Validate, checkEncryptionAlgorithm. fold a.
  destruct (ciphers s !! a) as [c|];
    [destruct (deciphers s !! a) as [d|]|].
  - split; [split; [intros _; split; eexists; reflexivity|reflexivity]|].
    split; [reflexivity|left; reflexivity].
  - split; [split; [discriminate|intros [_ [x Hx]]; discriminate]|].
    split; [reflexivity|right; reflexivity].
  - split; [split; [discriminate|intros [[x Hx] _]; discriminate]|].
    split; [reflexivity|right; reflexivity].
Qed.

Lemma Validate_registered_witness :
  (is_Some (ciphers sample.aesOnly !! "aes-cfb"%string)
   /\ is_Some (deciphers sample.aesOnly !! "aes-cfb"%string))
  /\ value (Validate sample.aesOnly sample.noSection) = None
  /\ value (Validate sample.cipherOnly sample.noSection)
     = Some ConfigurationError.
Proof.
  assert (is_Some (ciphers sample.aesOnly !! "aes-cfb"%string)
          /\ is_Some (deciphers sample.aesOnly !! "aes-cfb"%string)) as H
    by (split; eexists; reflexivity).
  split; [exact H|]. split.
  - exact (proj2 (proj1 (Validate_registered sample.aesOnly sample.noSection))
             H).
  - destruct (proj2 (proj2 (Validate_registered sample.cipherOnly
                              sample.noSection))) as [Hn|He]; [|exact He].
    vm_compute in Hn. discriminate.
Defined.



End Construction.

Section Frames.

Import service.

(** X4.  [Encrypt] fails exactly when no cipher is registered for the configured
    algorithm; it then returns no bytes and the unavailable-cipher error,
    whose message carries the algorithm, writes one log entry and calls no
    cipher. *)
Theorem Encrypt_error_iff (s : Service) (p : list byte) (secret : string) :
  let a := configuredAlgorithm (settingsProvider s) in
  (snd (value (Encrypt s p secret)) <> None <-> ciphers s !! a = None)
  /\ (ciphers s !! a = None ->
      Encrypt s p secret
      = ([], Some (UnavailableCipherError a),
         [LogError "Encryption failed"
                   [("error", LError (UnavailableCipherError a))]])
      /\ names (UnavailableCipherError a) a = true).
Proof.
  intros a. split.
  - destruct (ciphers s !! a) as [cipher|] eqn:Hc.
    + rewrite (Encrypt_registered s p secret cipher Hc).
      split; [intros H; exfalso; apply H; reflexivity|discriminate].
    + rewrite (Encrypt_unregistered s p secret Hc).
      split; [reflexivity|discriminate].
  - intros Hc. rewrite (Encrypt_unregistered s p secret Hc).
    split; [reflexivity|].
    unfold names, UnavailableCipherError, Error.
    apply contains_append, contains_prefix, prefix_append.
Qed.

Lemma Encrypt_error_iff_witness :
  (ciphers (sample.both "none")
     !! configuredAlgorithm (settingsProvider (sample.both "none")) = None)
  /\ value (Encrypt (sample.both "none") sample.hello "k")
     = ([], Some (UnavailableCipherError "none")).
Proof.
  assert (ciphers (sample.both "none")
            !! configuredAlgorithm (settingsProvider (sample.both "none"))
          = None) as Hc by reflexivity.
  split; [exact Hc|].
  exact (f_equal fst
           (proj1 (proj2 (Encrypt_error_iff (sample.both "none")
                            sample.hello "k") Hc))).
Defined.

(** X5.  Reconfiguration keeps old ciphertexts readable.  [Decrypt] reads no
    setting: a ciphertext that [Encrypt] built under one service is
    decrypted by any service that has a decipher for the algorithm the
    frame names, whatever algorithm that second service has configured,
    provided the decipher inverts the cipher on this payload. *)
Theorem Decrypt_after_reconfiguration (s1 s2 : Service) (p : list byte)
    (secret : string) (cipher : encryption.Cipher)
    (decipher : encryption.Decipher) :
  let a := configuredAlgorithm (settingsProvider s1) in
  ciphers s1 !! a = Some cipher ->
  deciphers s2 !! a = Some decipher ->
  encryption.Decrypt decipher (fst (encryption.Encrypt cipher p secret))
                     secret = (p, None) ->
  Decrypt s2 (fst (value (Encrypt s1 p secret))) secret
  = (p, None,
     [DecipherCall a (fst (encryption.Encrypt cipher p secret)) secret]).
Proof.
  intros a Hc Hd Hrt.
  rewrite (Encrypt_registered s1 p secret cipher Hc).
  unfold value. cbn [fst]. fold a.
  rewrite (Decrypt_derived s2 _ secret a _ (derive_built_frame a _)), Hd, Hrt.
  reflexivity.
Qed.

Lemma Decrypt_after_reconfiguration_witness :
  (ciphers (sample.both "rev")
     !! configuredAlgorithm (settingsProvider (sample.both "rev"))
   = Some sample.revCipher)
  /\ (deciphers (sample.both "aes-cfb")
        !! configuredAlgorithm (settingsProvider (sample.both "rev"))
      = Some sample.revDecipher)
  /\ fst (value (Decrypt (sample.both "aes-cfb")
                   (fst (value (Encrypt (sample.both "rev")
                                        sample.hello "k"))) "k"))
     = sample.hello.
Proof.
  assert (ciphers (sample.both "rev")
            !! configuredAlgorithm (settingsProvider (sample.both "rev"))
          = Some sample.revCipher) as Hc by reflexivity.
  assert (deciphers (sample.both "aes-cfb")
            !! configuredAlgorithm (settingsProvider (sample.both "rev"))
          = Some sample.revDecipher) as Hd by reflexivity.
  assert (encryption.Decrypt sample.revDecipher
            (fst (encryption.Encrypt sample.revCipher sample.hello "k")) "k"
          = (sample.hello, None)) as Hrt by reflexivity.
  split; [exact Hc|]. split; [exact Hd|].
  exact (f_equal (fun r => fst (fst r))
           (Decrypt_after_reconfiguration (sample.both "rev")
              (sample.both "aes-cfb") sample.hello "k" sample.revCipher
              sample.revDecipher Hc Hd Hrt)).
Defined.

(** X6.  A ciphertext tells its algorithm and its cipher output apart: when two
    [Encrypt] calls, each with its cipher registered, return the same
    bytes, the two configured algorithms are the same and so are the bytes
    the two ciphers returned. *)
Theorem Encrypt_unambiguous (s1 s2 : Service) (p1 p2 : list byte)
    (secret1 secret2 : string) (c1 c2 : encryption.Cipher) :
  ciphers s1 !! configuredAlgorithm (settingsProvider s1) = Some c1 ->
  ciphers s2 !! configuredAlgorithm (settingsProvider s2) = Some c2 ->
  fst (value (Encrypt s1 p1 secret1)) = fst (value (Encrypt s2 p2 secret2)) ->
  configuredAlgorithm (settingsProvider s1)
  = configuredAlgorithm (settingsProvider s2)
  /\ fst (encryption.Encrypt c1 p1 secret1)
     = fst (encryption.Encrypt c2 p2 secret2).
Proof.
  intros H1 H2.
  rewrite (Encrypt_registered s1 p1 secret1 c1 H1).
  rewrite (Encrypt_registered s2 p2 secret2 c2 H2).
  unfold value. cbn [fst]. intros Heq.
  pose proof (derive_built_frame (configuredAlgorithm (settingsProvider s1))
                (fst (encryption.Encrypt c1 p1 secret1))) as Hd1.
  rewrite Heq, derive_built_frame in Hd1.
  injection Hd1 as <- <-. split; reflexivity.
Qed.

Lemma Encrypt_unambiguous_witness :
  (ciphers sample.aesOnly
     !! configuredAlgorithm (settingsProvider sample.aesOnly)
   = Some sample.tagCipher)
  /\ (ciphers (sample.both "aes-cfb")
        !! configuredAlgorithm (settingsProvider (sample.both "aes-cfb"))
      = Some sample.tagCipher)
  /\ configuredAlgorithm (settingsProvider sample.aesOnly)
     = configuredAlgorithm (settingsProvider (sample.both "aes-cfb")).
Proof.
  assert (ciphers sample.aesOnly
            !! configuredAlgorithm (settingsProvider sample.aesOnly)
          = Some sample.tagCipher) as H1 by reflexivity.
  assert (ciphers (sample.both "aes-cfb")
            !! configuredAlgorithm (settingsProvider (sample.both "aes-cfb"))
          = Some sample.tagCipher) as H2 by reflexivity.
  assert (fst (value (Encrypt sample.aesOnly sample.hello "k"))
          = fst (value (Encrypt (sample.both "aes-cfb") sample.hello "k")))
    as Heq by reflexivity.
  split; [exact H1|]. split; [exact H2|].
  exact (proj1 (Encrypt_unambiguous sample.aesOnly (sample.both "aes-cfb")
                  sample.hello sample.hello "k" "k" sample.tagCipher
                  sample.tagCipher H1 H2 Heq)).
Defined.

End Frames.

Section Segments.

Import service.

Lemma IndexByte_split (l : list byte) (c : byte) :
  c ∈ l -> exists pre post, l = pre ++ c :: post /\ c ∉ pre.
Proof.
  induction l as [|x l IH]; intros Hin.
  - apply elem_of_nil in Hin. contradiction.
  - destruct (decide (x = c)) as [->|Hne].
    + exists [], l. split; [reflexivity|apply not_elem_of_nil].
    + apply elem_of_cons in Hin as [Heq|Hin]; [congruence|].
      destruct (IH Hin) as (pre & post & -> & Hpre).
      exists (x :: pre), post. split; [reflexivity|].
      apply not_elem_of_cons. split; [congruence|exact Hpre].
Qed.

(** What [deriveEncryptionAlgorithm] returns: on success a suffix of the
    payload; on failure the empty identifier and no bytes. *)
Lemma derive_outcome (payload : list byte) :
  match deriveEncryptionAlgorithm payload with
  | (algorithm, toDecrypt, None) =>
      toDecrypt `suffix_of` payload /\ payload <> []
  | (algorithm, toDecrypt, Some e) =>
      algorithm = ""%string /\ toDecrypt = []
      /\ (payload = []
          \/ exists off, e = CorruptInputError off
                         /\ head payload = Some "*"%byte)
  end.
Proof.
  destruct payload as [|c rest].
  - rewrite derive_empty. repeat split. left. reflexivity.
  - destruct (decide (c = "*"%byte)) as [->|Hc].
    + destruct (decide ("*"%byte ∈ rest)) as [Hin|Hnot].
      * destruct (IndexByte_split rest _ Hin) as (b64 & post & -> & Hb64).
        rewrite (derive_frame b64 post Hb64).
        destruct (Base64.Decode _ b64) as [[buf n]|off].
        -- split; [|discriminate].
           exists ("*"%byte :: b64 ++ ["*"%byte]).
           cbn [app]. rewrite <- app_assoc. reflexivity.
        -- repeat split. right. exists off. split; reflexivity.
      * rewrite (derive_single rest Hnot). split; [|discriminate].
        exists ["*"%byte]. reflexivity.
    + rewrite (derive_legacy c rest Hc). split; [|discriminate].
      exists []. reflexivity.
Qed.

(** X7.  [Decrypt] logs exactly when it returns an error, and with that error;
    it calls at most one decipher, a registered one, with the caller's
    secret and a suffix of the ciphertext, and that call comes before the
    log entry. *)
Theorem Decrypt_trace_shape (s : Service) (payload : list byte)
    (secret : string) :
  log_errors (trace (Decrypt s payload secret))
  = failure_log "Decryption failed" (snd (value (Decrypt s payload secret)))
  /\ (decipher_calls (trace (Decrypt s payload secret)) = []
      \/ exists algorithm toDecrypt,
          decipher_calls (trace (Decrypt s payload secret))
          = [DecipherCall algorithm toDecrypt secret]
          /\ toDecrypt `suffix_of` payload
          /\ is_Some (deciphers s !! algorithm)
          /\ trace (Decrypt s payload secret)
             = DecipherCall algorithm toDecrypt secret
               :: log_errors (trace (Decrypt s payload secret))).
Proof.
  pose proof (derive_outcome payload) as Ho.
  destruct (deriveEncryptionAlgorithm payload) as [[algorithm toDecrypt] err]
    eqn:Hd.
  destruct err as [e|].
  - rewrite (Decrypt_underived s payload secret _ _ e Hd).
    split; [reflexivity|left; reflexivity].
  - rewrite (Decrypt_derived s payload secret _ _ Hd).
    destruct (deciphers s !! algorithm) as [decipher|] eqn:Hl.
    + unfold value, trace. cbn [fst snd].
      destruct (snd (encryption.Decrypt decipher toDecrypt secret)) as [e|].
      * split; [reflexivity|]. right. exists algorithm, toDecrypt.
        split; [reflexivity|]. split; [apply Ho|].
        split; [exists decipher; exact Hl|reflexivity].
      * split; [reflexivity|]. right. exists algorithm, toDecrypt.
        split; [reflexivity|]. split; [apply Ho|].
        split; [exists decipher; exact Hl|reflexivity].
    + split; [reflexivity|left; reflexivity].
Qed.

(** The decoder stops at the first byte that is neither a letter of the
    alphabet nor a carriage return or line feed, and reports its offset. *)
Lemma decode_from_first_illegal (pre : list byte) (c : byte)
    (post : list byte) (si : Z) (dbuf : list Z) :
  Forall (fun x => b64_letter x || b64_skipped x = true) pre ->
  b64_letter c = false -> b64_skipped c = false ->
  Base64.decode_from (pre ++ c :: post) si dbuf = inr (si + Bytes.len pre).
Proof.
  unfold b64_letter, b64_skipped. intros Hpre Hc1 Hc2.
  revert si dbuf. induction Hpre as [|x pre Hx Hpre IH]; intros si dbuf.
  - cbn [app]. rewrite decode_from_cons, Hc1, Hc2.
    unfold Bytes.len. cbn [length]. f_equal. lia.
  - cbn [app]. rewrite decode_from_cons.
    replace (si + Bytes.len (x :: pre)) with (si + 1 + Bytes.len pre)
      by (unfold Bytes.len; cbn [length]; lia).
    destruct (negb (Base64.decodeMap x =? 255)).
    + destruct (length (dbuf ++ [Base64.decodeMap x]) =? 4)%nat;
        rewrite IH; reflexivity.
    + cbn [orb] in Hx. rewrite Hx. apply IH.
Qed.

(** X8.  A frame whose base64 segment holds a byte outside the alphabet (the
    padding character [=] for one) is rejected: [Decrypt] fails with
    [CorruptInputError] at the offset of the first such byte within the
    segment, logs it, and calls no decipher. *)
Theorem Decrypt_illegal_segment_byte (s : Service) (pre : list byte)
    (c : byte) (post rest : list byte) (secret : string) :
  Forall (fun x => b64_letter x || b64_skipped x = true) pre ->
  b64_letter c = false -> b64_skipped c = false ->
  c <> "*"%byte -> "*"%byte ∉ post ->
  Decrypt s ("*"%byte :: (pre ++ c :: post) ++ "*"%byte :: rest) secret
  = ([], Some (CorruptInputError (Bytes.len pre)),
     [LogError "Decryption failed"
               [("error", LError (CorruptInputError (Bytes.len pre)))]]).
Proof.
  intros Hpre Hc1 Hc2 Hc Hpost.
  assert ("*"%byte ∉ pre ++ c :: post) as Hseg.
  { rewrite not_elem_of_app, not_elem_of_cons.
    split; [|split; [congruence|exact Hpost]].
    intros Hin. rewrite Forall_forall in Hpre.
    specialize (Hpre _ Hin). vm_compute in Hpre. discriminate. }
  apply (Decrypt_underived s _ secret ""%string []).
  rewrite (derive_frame _ rest Hseg). unfold Base64.Decode.
  rewrite (decode_from_first_illegal pre c post 0 [] Hpre Hc1 Hc2).
  reflexivity.
Qed.

Lemma Decrypt_illegal_segment_byte_witness :
  Forall (fun x => b64_letter x || b64_skipped x = true)
         (list_byte_of_string "YQ")
  /\ b64_letter "="%byte = false /\ b64_skipped "="%byte = false
  /\ "="%byte <> "*"%byte /\ ("*"%byte ∉ list_byte_of_string "=")
  /\ Decrypt sample.aesOnly (list_byte_of_string "*YQ==*khello") "k"
     = ([], Some (CorruptInputError 2),
        [LogError "Decryption failed"
                  [("error", LError (CorruptInputError 2))]]).
Proof.
  assert (Forall (fun x => b64_letter x || b64_skipped x = true)
                 (list_byte_of_string "YQ")) as Hpre
    by (repeat constructor).
  assert (b64_letter "="%byte = false) as Hc1 by reflexivity.
  assert (b64_skipped "="%byte = false) as Hc2 by reflexivity.
  assert ("="%byte <> "*"%byte) as Hc by discriminate.
  assert ("*"%byte ∉ list_byte_of_string "=") as Hpost
    by (apply IndexByte_absent; reflexivity).
  split; [exact Hpre|]. split; [exact Hc1|]. split; [exact Hc2|].
  split; [exact Hc|]. split; [exact Hpost|].
  exact (Decrypt_illegal_segment_byte sample.aesOnly
           (list_byte_of_string "YQ") "="%byte (list_byte_of_string "=")
           (list_byte_of_string "khello") "k" Hpre Hc1 Hc2 Hc Hpost).
Defined.

Lemma quantum_bytes_length (dbuf : list Z) :
  length (Base64.quantum_bytes dbuf) = Nat.min (length dbuf - 1) 3.
Proof. unfold Base64.quantum_bytes. rewrite length_take. reflexivity. Qed.

(** The decoder writes at most six bits per source byte. *)
Lemma decode_from_length (src : list byte) (si : Z) (dbuf : list Z)
    (bs : list byte) :
  Base64.decode_from src si dbuf = inl bs -> (length dbuf < 4)%nat ->
  Bytes.len bs <= (Z.of_nat (length dbuf) + Bytes.len src) * 6 / 8.
Proof.
  unfold Bytes.len. revert si dbuf bs.
  induction src as [|c rest IH]; intros si dbuf bs H Hj.
  - cbn [Base64.decode_from] in H. cbn [length].
    destruct dbuf as [|d0 [|d1 [|d2 [|d3 dbuf]]]];
      [injection H as <-; reflexivity|discriminate| | |cbn [length] in Hj; lia];
      injection H as <-; rewrite quantum_bytes_length; cbn [length];
      Z.div_mod_to_equations; lia.
  - rewrite decode_from_cons in H. cbn [length].
    destruct (negb (Base64.decodeMap c =? 255)).
    + destruct (length (dbuf ++ [Base64.decodeMap c]) =? 4)%nat eqn:E4.
      * destruct (Base64.decode_from rest (si + 1) []) as [bs'|] eqn:Er;
          [|discriminate].
        injection H as <-. apply Nat.eqb_eq in E4.
        specialize (IH _ _ _ Er). cbn [length] in IH.
        rewrite length_app, quantum_bytes_length, E4.
        rewrite length_app in E4. cbn [length] in E4.
        specialize (IH ltac:(lia)).
        Z.div_mod_to_equations. lia.
      * apply Nat.eqb_neq in E4. specialize (IH _ _ _ H).
        rewrite length_app in IH, E4. cbn [length] in IH, E4.
        specialize (IH ltac:(lia)).
        Z.div_mod_to_equations. lia.
    + destruct (Byte.eqb c x0a || Byte.eqb c x0d); [|discriminate].
      specialize (IH _ _ _ H Hj). Z.div_mod_to_equations. lia.
Qed.

Lemma list_byte_of_string_inj_r (l : list byte) (a : string) :
  a = string_of_list_byte l -> list_byte_of_string a = l.
Proof. intros ->. apply list_byte_of_string_of_list_byte. Qed.

(** X9.  The identifier taken from a frame is the whole decode buffer: the
    decoded bytes, which never exceed the [DecodedLen] bytes allocated for
    them, followed by a zero byte for each byte of the buffer the decoder
    left unwritten (as happens when the segment holds line breaks).  The
    cipher output is what follows the second delimiter. *)
Theorem derive_algorithm_buffer (b64 rest : list byte) (algorithm : string)
    (toDecrypt : list byte) :
  "*"%byte ∉ b64 ->
  deriveEncryptionAlgorithm ("*"%byte :: b64 ++ "*"%byte :: rest)
  = (algorithm, toDecrypt, None) ->
  toDecrypt = rest
  /\ exists decoded,
      Base64.decode_from b64 0 [] = inl decoded
      /\ Bytes.len decoded <= Base64.DecodedLen (Bytes.len b64)
      /\ list_byte_of_string algorithm
         = decoded
           ++ replicate (Z.to_nat (Base64.DecodedLen (Bytes.len b64)
                                   - Bytes.len decoded)) x00.
Proof.
  intros Hb64 Hd. rewrite (derive_frame b64 rest Hb64) in Hd.
  unfold Base64.Decode in Hd.
  destruct (Base64.decode_from b64 0 []) as [decoded|off] eqn:Hdec;
    [|discriminate].
  injection Hd as Ha <-. split; [reflexivity|].
  exists decoded. split; [reflexivity|].
  pose proof (decode_from_length b64 0 [] decoded Hdec) as Hlen.
  cbn [length] in Hlen. specialize (Hlen ltac:(lia)).
  change (Z.of_nat 0 + Bytes.len b64) with (Bytes.len b64) in Hlen.
  fold (Base64.DecodedLen (Bytes.len b64)) in Hlen.
  split; [exact Hlen|].
  apply list_byte_of_string_inj_r. rewrite <- Ha. f_equal.
  pose proof (len_nonneg decoded) as Hn.
  rewrite copy_at_fits by (rewrite ?len_make; lia).
  change (Z.to_nat 0) with 0%nat. rewrite take_0. cbn [app Nat.add].
  f_equal. unfold Bytes.make. rewrite drop_replicate. f_equal.
  unfold Bytes.len. lia.
Qed.

Lemma derive_algorithm_buffer_witness :
  let b64 := list_byte_of_string "YWVz" ++ [x0a]
             ++ list_byte_of_string "LWNmYg" in
  let algorithm :=
    string_of_list_byte (list_byte_of_string "aes-cfb" ++ [x00]) in
  ("*"%byte ∉ b64)
  /\ deriveEncryptionAlgorithm
       ("*"%byte :: b64 ++ "*"%byte :: list_byte_of_string "khello")
     = (algorithm, list_byte_of_string "khello", None)
  /\ exists decoded,
      Base64.decode_from b64 0 [] = inl decoded
      /\ Bytes.len decoded <= Base64.DecodedLen (Bytes.len b64)
      /\ list_byte_of_string algorithm
         = decoded
           ++ replicate (Z.to_nat (Base64.DecodedLen (Bytes.len b64)
                                   - Bytes.len decoded)) x00.
Proof.
  cbv zeta.
  assert ("*"%byte ∉ list_byte_of_string "YWVz" ++ [x0a]
                     ++ list_byte_of_string "LWNmYg") as Hb64
    by (apply IndexByte_absent; reflexivity).
  assert (deriveEncryptionAlgorithm
            ("*"%byte :: (list_byte_of_string "YWVz" ++ [x0a]
                          ++ list_byte_of_string "LWNmYg")
             ++ "*"%byte :: list_byte_of_string "khello")
          = (string_of_list_byte (list_byte_of_string "aes-cfb" ++ [x00]),
             list_byte_of_string "khello", None)) as Hd by reflexivity.
  split; [exact Hb64|]. split; [exact Hd|].
  exact (proj2 (derive_algorithm_buffer _ _ _ _ Hb64 Hd)).
Defined.

End Segments.

Section Maps.

Import service.

Lemma trace_bind {A B} (m : M A) (k : A -> M B) :
  trace (bind m k) = trace m ++ trace (k (value m)).
Proof.
  unfold value, trace, bind. destruct m as [a t1]. cbn [fst snd].
  destruct (k a) as [b t2]. reflexivity.
Qed.

Lemma EncryptJsonData_value (s : Service) (secret : string)
    (kv : gmap string string) (entries : list (string * string)) :
  range_order kv entries ->
  value (EncryptJsonData s entries secret)
  = batch (fun v => Encrypt s (list_byte_of_string v) secret) id kv entries.
Proof.
  intros Hr.
  destruct (collected_range
              (fun v => fst (value (Encrypt s (list_byte_of_string v) secret)))
              kv entries Hr) as [Hnd Hmap].
  unfold EncryptJsonData, batch.
  rewrite (EncryptJsonData_range_value s secret entries ∅ Hnd).
  destruct (first_error _ entries); [reflexivity|].
  rewrite (right_id_L ∅ (∪)), Hmap. reflexivity.
Qed.

Lemma DecryptJsonData_value (s : Service) (secret : string)
    (sjd : gmap string (list byte)) (entries : list (string * list byte)) :
  range_order sjd entries ->
  value (DecryptJsonData s entries secret)
  = batch (fun d => Decrypt s d secret) string_of_list_byte sjd entries.
Proof.
  intros Hr.
  destruct (collected_range
              (fun d => string_of_list_byte (fst (value (Decrypt s d secret))))
              sjd entries Hr) as [Hnd Hmap].
  unfold DecryptJsonData, batch.
  rewrite (DecryptJsonData_range_value s secret entries ∅ Hnd).
  destruct (first_error _ entries); [reflexivity|].
  rewrite (right_id_L ∅ (∪)), Hmap. reflexivity.
Qed.

(** X10.  Map round trip.  When the configured algorithm has a cipher and a
    decipher and the decipher inverts the cipher on every value of the map
    under [secret], [EncryptJsonData] succeeds and [DecryptJsonData] of its
    result gives the input map back, whatever the two iteration orders. *)
Theorem JsonData_roundtrip (s : Service) (secret : string)
    (cipher : encryption.Cipher) (decipher : encryption.Decipher)
    (kv : gmap string string) (entries : list (string * string))
    (entries' : list (string * list byte)) :
  ciphers s !! configuredAlgorithm (settingsProvider s) = Some cipher ->
  deciphers s !! configuredAlgorithm (settingsProvider s) = Some decipher ->
  (forall k v, kv !! k = Some v ->
     encryption.Decrypt decipher
       (fst (encryption.Encrypt cipher (list_byte_of_string v) secret)) secret
     = (list_byte_of_string v, None)) ->
  range_order kv entries ->
  range_order (fst (value (EncryptJsonData s entries secret))) entries' ->
  snd (value (EncryptJsonData s entries secret)) = None
  /\ value (DecryptJsonData s entries' secret) = (kv, None).
Proof.
  intros Hc Hd Hrt Hr.
  set (a := configuredAlgorithm (settingsProvider s)) in *.
  set (enc := fun v : string =>
                frame a (fst (encryption.Encrypt cipher
                                (list_byte_of_string v) secret))).
  assert (forall v, value (Encrypt s (list_byte_of_string v) secret)
                    = (enc v, None)) as Henc
    by (intros v; rewrite (Encrypt_registered s _ secret cipher Hc);
        reflexivity).
  assert (value (EncryptJsonData s entries secret) = (enc <$> kv, None))
    as Hv.
  { rewrite (EncryptJsonData_value s secret kv entries Hr). unfold batch.
    assert (first_error (fun v => Encrypt s (list_byte_of_string v) secret)
                        entries = None) as ->.
    { apply first_error_None, Forall_forall. intros [k v] _.
      cbn [snd]. rewrite Henc. reflexivity. }
    f_equal. apply map_fmap_ext. intros k v _. rewrite Henc. reflexivity. }
  rewrite Hv. cbn [fst snd]. intros Hr'. split; [reflexivity|].
  assert (forall k v, kv !! k = Some v ->
                      value (Decrypt s (enc v) secret)
                      = (list_byte_of_string v, None)) as Hdec.
  { intros k v Hk. unfold enc.
    rewrite (Decrypt_derived s _ secret a _ (derive_built_frame a _)), Hd.
    unfold value. cbn [fst]. exact (Hrt k v Hk). }
  rewrite (DecryptJsonData_value s secret (enc <$> kv) entries' Hr').
  unfold batch.
  assert (first_error (fun d => Decrypt s d secret) entries' = None) as ->.
  { apply first_error_None, Forall_forall. intros [k d] Hin. cbn [snd].
    unfold range_order in Hr'. rewrite Hr' in Hin. apply elem_of_map_to_list in Hin.
    apply lookup_fmap_Some in Hin as (v & <- & Hk).
    rewrite (Hdec k v Hk). reflexivity. }
  f_equal. rewrite <- map_fmap_compose.
  rewrite <- (map_fmap_id kv) at 2. apply map_fmap_ext.
  intros k v Hk. cbn. rewrite (Hdec k v Hk). cbn [fst].
  apply string_of_list_byte_of_string.
Qed.

Lemma JsonData_roundtrip_witness :
  let entries := [("b", "2"); ("a", "1")]%string in
  let encrypted :=
    fst (value (EncryptJsonData sample.aesOnly entries "k")) in
  range_order sample.plainJson entries
  /\ range_order encrypted (map_to_list encrypted)
  /\ value (DecryptJsonData sample.aesOnly (map_to_list encrypted) "k")
     = (sample.plainJson, None).
Proof.
  cbv zeta.
  assert (ciphers sample.aesOnly
            !! configuredAlgorithm (settingsProvider sample.aesOnly)
          = Some sample.tagCipher) as Hc by reflexivity.
  assert (deciphers sample.aesOnly
            !! configuredAlgorithm (settingsProvider sample.aesOnly)
          = Some sample.tagDecipher) as Hd by reflexivity.
  assert (forall k v, sample.plainJson !! k = Some v ->
            encryption.Decrypt sample.tagDecipher
              (fst (encryption.Encrypt sample.tagCipher
                      (list_byte_of_string v) "k")) "k"
            = (list_byte_of_string v, None)) as Hrt
    by (intros k v _; reflexivity).
  assert (range_order sample.plainJson [("b", "2"); ("a", "1")]%string)
    as Hr.
  { unfold range_order.
    replace (map_to_list sample.plainJson)
      with [("a", "1"); ("b", "2")]%string by (vm_compute; reflexivity).
    apply Permutation_swap. }
  assert (range_order
            (fst (value (EncryptJsonData sample.aesOnly
                           [("b", "2"); ("a", "1")]%string "k")))
            (map_to_list
               (fst (value (EncryptJsonData sample.aesOnly
                              [("b", "2"); ("a", "1")]%string "k")))))
    as Hr' by (unfold range_order; reflexivity).
  split; [exact Hr|]. split; [exact Hr'|].
  exact (proj2 (JsonData_roundtrip sample.aesOnly "k" sample.tagCipher
                  sample.tagDecipher sample.plainJson _ _ Hc Hd Hrt Hr Hr')).
Defined.

(** The loop of [DecryptJsonData] up to its first failing entry. *)
Lemma DecryptJsonData_range_stops (s : Service) (secret : string)
    (before : list (string * list byte)) (key : string) (data : list byte)
    (after : list (string * list byte)) (e : error)
    (acc : gmap string string) :
  Forall (fun kd => snd (value (Decrypt s (snd kd) secret)) = None) before ->
  snd (value (Decrypt s data secret)) = Some e ->
  DecryptJsonData_range s (before ++ (key, data) :: after) secret acc
  = (∅, Some e,
     flat_map (fun kd => trace (Decrypt s (snd kd) secret)) before
     ++ trace (Decrypt s data secret)).
Proof.
  intros Hb He. revert acc.
  induction Hb as [|[k d] before Hd Hb IH]; intros acc.
  - cbn [app flat_map DecryptJsonData_range].
    unfold value, trace in *.
    destruct (Decrypt s data secret) as [[dd err] t]. cbn [fst snd] in *.
    subst err. unfold bind, ret. rewrite app_nil_r. reflexivity.
  - cbn [app flat_map DecryptJsonData_range snd].
    unfold value, trace in Hd |- *. cbn [snd] in Hd.
    destruct (Decrypt s d secret) as [[dd err] t]. cbn [fst snd] in *.
    subst err. unfold bind at 1. rewrite IH. rewrite <- app_assoc.
    reflexivity.
Qed.

(** X11.  [DecryptJsonData] stops at the first entry that fails to decrypt: it
    returns that entry's error and an empty map, and its trace is the
    traces of the entries before it followed by the trace of the failing
    one, so no entry after it reaches [Decrypt]. *)
Theorem DecryptJsonData_fail_fast (s : Service) (secret : string)
    (before : list (string * list byte)) (key : string) (data : list byte)
    (after : list (string * list byte)) (e : error) :
  Forall (fun kd => snd (value (Decrypt s (snd kd) secret)) = None) before ->
  snd (value (Decrypt s data secret)) = Some e ->
  value (DecryptJsonData s (before ++ (key, data) :: after) secret)
  = (∅, Some e)
  /\ trace (DecryptJsonData s (before ++ (key, data) :: after) secret)
     = flat_map (fun kd => trace (Decrypt s (snd kd) secret)) before
       ++ trace (Decrypt s data secret).
Proof.
  intros Hb He. unfold DecryptJsonData.
  rewrite (DecryptJsonData_range_stops s secret before key data after e ∅
             Hb He).
  split; reflexivity.
Qed.

Lemma DecryptJsonData_fail_fast_witness :
  let good := list_byte_of_string "*YWVzLWNmYg*k1" in
  let bad := list_byte_of_string "*eHl6*k2" in
  Forall (fun kd => snd (value (Decrypt sample.aesOnly (snd kd) "k")) = None)
         [("a"%string, good)]
  /\ snd (value (Decrypt sample.aesOnly bad "k"))
     = Some (UnavailableDecipherError "xyz")
  /\ decipher_calls
       (trace (DecryptJsonData sample.aesOnly
                 ([("a"%string, good)] ++ ("b"%string, bad)
                  :: [("c"%string, good)]) "k"))
     = [DecipherCall "aes-cfb" (list_byte_of_string "k1") "k"].
Proof.
  cbv zeta.
  assert (Forall (fun kd => snd (value (Decrypt sample.aesOnly (snd kd) "k"))
                            = None)
                 [("a"%string, list_byte_of_string "*YWVzLWNmYg*k1")]) as Hb
    by (repeat constructor).
  assert (snd (value (Decrypt sample.aesOnly
                        (list_byte_of_string "*eHl6*k2") "k"))
          = Some (UnavailableDecipherError "xyz")) as He by reflexivity.
  split; [exact Hb|]. split; [exact He|].
  rewrite (proj2 (DecryptJsonData_fail_fast sample.aesOnly "k" _ "b" _
                    [("c"%string, list_byte_of_string "*YWVzLWNmYg*k1")]
                    _ Hb He)).
  reflexivity.
Defined.

(** The loop of [EncryptJsonData] with a registered cipher. *)
Lemma EncryptJsonData_range_calls (s : Service) (secret : string)
    (cipher : encryption.Cipher) (entries : list (string * string))
    (acc : gmap string (list byte)) :
  ciphers s !! configuredAlgorithm (settingsProvider s) = Some cipher ->
  snd (value (EncryptJsonData_range s entries secret acc)) = None
  /\ cipher_calls (trace (EncryptJsonData_range s entries secret acc))
     = map (fun kv => CipherCall (configuredAlgorithm (settingsProvider s))
                                 (list_byte_of_string (snd kv)) secret)
           entries.
Proof.
  intros Hc. unfold value, trace.
  revert acc. induction entries as [|[k v] rest IH]; intros acc.
  - split; reflexivity.
  - cbn [EncryptJsonData_range map snd].
    rewrite (Encrypt_registered s _ secret cipher Hc).
    cbv beta iota delta [bind].
    specialize (IH (<[k:=frame (configuredAlgorithm (settingsProvider s))
                          (fst (encryption.Encrypt cipher
                                  (list_byte_of_string v) secret))]> acc)).
    destruct (EncryptJsonData_range s rest secret _) as [[m err] t].
    cbn [fst snd] in IH |- *. destruct IH as [IHv IHt].
    split; [exact IHv|].
    unfold cipher_calls in *. cbn [List.filter is_cipher_call].
    rewrite List.filter_app, IHt. f_equal.
    destruct (snd (encryption.Encrypt cipher (list_byte_of_string v) secret));
      reflexivity.
Qed.

(** X12.  With the configured cipher registered, [EncryptJsonData] never fails
    and hands every value to that cipher exactly once, in iteration order,
    under the caller's secret, also when the cipher itself reports
    errors. *)
Theorem EncryptJsonData_calls (s : Service) (secret : string)
    (cipher : encryption.Cipher) (entries : list (string * string)) :
  ciphers s !! configuredAlgorithm (settingsProvider s) = Some cipher ->
  snd (value (EncryptJsonData s entries secret)) = None
  /\ cipher_calls (trace (EncryptJsonData s entries secret))
     = map (fun kv => CipherCall (configuredAlgorithm (settingsProvider s))
                                 (list_byte_of_string (snd kv)) secret)
           entries.
Proof.
  intros Hc. exact (EncryptJsonData_range_calls s secret cipher entries ∅ Hc).
Qed.

Lemma EncryptJsonData_calls_witness :
  (ciphers sample.failing
     !! configuredAlgorithm (settingsProvider sample.failing)
   = Some sample.failingCipher)
  /\ snd (value (EncryptJsonData sample.failing
                   [("a", "1"); ("b", "2")]%string "k")) = None.
Proof.
  assert (ciphers sample.failing
            !! configuredAlgorithm (settingsProvider sample.failing)
          = Some sample.failingCipher) as Hc by reflexivity.
  split; [exact Hc|].
  exact (proj1 (EncryptJsonData_calls sample.failing "k" sample.failingCipher
                  [("a", "1"); ("b", "2")]%string Hc)).
Defined.

(** The failure [Decrypt] returns is in its trace. *)
Lemma Decrypt_failure_logged (s : Service) (payload : list byte)
    (secret : string) (e : error) :
  snd (value (Decrypt s payload secret)) = Some e ->
  LogError "Decryption failed" [("error", LError e)]
  ∈ trace (Decrypt s payload secret).
Proof.
  destruct (deriveEncryptionAlgorithm payload) as [[algorithm toDecrypt] err]
    eqn:Hd.
  destruct err as [e'|].
  - rewrite (Decrypt_underived s payload secret _ _ e' Hd).
    unfold value, trace. cbn [fst snd]. intros [= ->]. apply list_elem_of_here.
  - rewrite (Decrypt_derived s payload secret _ _ Hd).
    destruct (deciphers s !! algorithm) as [decipher|].
    + unfold value, trace. cbn [fst snd]. intros ->.
      apply list_elem_of_further, list_elem_of_here.
    + unfold value, trace. cbn [fst snd]. intros [= <-].
      apply list_elem_of_here.
Qed.

(** X13.  [GetDecryptedValue] hides a decryption failure from its caller but not
    from the log: for a key that is present its events are those of the one
    [Decrypt] call it makes, so a failure it answers with the fallback has
    left its "Decryption failed" entry. *)
Theorem GetDecryptedValue_logs_failure (s : Service)
    (sjd : gmap string (list byte)) (key fallback secret : string)
    (v : list byte) (e : error) :
  sjd !! key = Some v ->
  snd (value (Decrypt s v secret)) = Some e ->
  GetDecryptedValue s sjd key fallback secret
  = (fallback, trace (Decrypt s v secret))
  /\ LogError "Decryption failed" [("error", LError e)]
     ∈ trace (GetDecryptedValue s sjd key fallback secret).
Proof.
  intros Hk He.
  assert (GetDecryptedValue s sjd key fallback secret
          = (fallback, trace (Decrypt s v secret))) as Heq.
  { unfold GetDecryptedValue. rewrite Hk. unfold value, trace in *.
    destruct (Decrypt s v secret) as [[dd err] t]. cbn [fst snd] in *.
    subst err. unfold bind, ret. rewrite app_nil_r. reflexivity. }
  split; [exact Heq|]. rewrite Heq. unfold trace at 1. cbn [snd].
  exact (Decrypt_failure_logged s v secret e He).
Qed.

Lemma GetDecryptedValue_logs_failure_witness :
  (sample.secureJson !! "a"%string = Some (list_byte_of_string "kabc"))
  /\ snd (value (Decrypt sample.aesOnly (list_byte_of_string "kabc") "j"))
     = Some (errorString "wrong secret")
  /\ GetDecryptedValue sample.aesOnly sample.secureJson "a" "none" "j"
     = ("none"%string,
        trace (Decrypt sample.aesOnly (list_byte_of_string "kabc") "j")).
Proof.
  assert (sample.secureJson !! "a"%string
          = Some (list_byte_of_string "kabc")) as Hk by reflexivity.
  assert (snd (value (Decrypt sample.aesOnly (list_byte_of_string "kabc")
                              "j"))
          = Some (errorString "wrong secret")) as He by reflexivity.
  split; [exact Hk|]. split; [exact He|].
  exact (proj1 (GetDecryptedValue_logs_failure sample.aesOnly
                  sample.secureJson "a" "none" "j" _ _ Hk He)).
Defined.

End Maps.

Section Legacy.

Import service.

(** After a leading delimiter the cipher bytes lie in what follows it. *)
Lemma derive_after_delimiter (rest : list byte) (algorithm : string)
    (toDecrypt : list byte) :
  deriveEncryptionAlgorithm ("*"%byte :: rest) = (algorithm, toDecrypt, None)
  -> toDecrypt `suffix_of` rest.
Proof.
  destruct (decide ("*"%byte ∈ rest)) as [Hin|Hnot].
  - destruct (IndexByte_split rest _ Hin) as (b64 & post & -> & Hb64).
    rewrite (derive_frame b64 post Hb64).
    destruct (Base64.Decode _ b64) as [[buf n]|off]; [|discriminate].
    intros [= _ <-]. exists (b64 ++ ["*"%byte]).
    rewrite <- app_assoc. reflexivity.
  - rewrite (derive_single rest Hnot). intros [= _ <-]. exists []. reflexivity.
Qed.

(** X14.  A ciphertext that starts with the delimiter never reaches a decipher
    unchanged: whatever decipher call [Decrypt] makes for it carries only
    bytes that follow the first byte.  A legacy ciphertext whose raw bytes
    happen to start with the delimiter is therefore not decrypted
    verbatim. *)
Theorem Decrypt_delimiter_never_verbatim (s : Service) (rest : list byte)
    (secret algorithm secret' : string) (toDecrypt : list byte) :
  DecipherCall algorithm toDecrypt secret'
  ∈ trace (Decrypt s ("*"%byte :: rest) secret) ->
  toDecrypt `suffix_of` rest
  /\ (length toDecrypt < length ("*"%byte :: rest))%nat
  /\ secret' = secret.
Proof.
  intros Hin.
  destruct (deriveEncryptionAlgorithm ("*"%byte :: rest))
    as [[a td] err] eqn:Hd.
  destruct err as [e|].
  - rewrite (Decrypt_underived s _ secret _ _ e Hd) in Hin.
    unfold trace in Hin. cbn [snd failure_log] in Hin.
    apply list_elem_of_singleton in Hin. discriminate.
  - pose proof (derive_after_delimiter rest a td Hd) as Hsuf.
    rewrite (Decrypt_derived s _ secret _ _ Hd) in Hin.
    assert (toDecrypt = td /\ secret' = secret) as [-> ->].
    { destruct (deciphers s !! a) as [decipher|].
      - unfold trace in Hin. cbn [snd] in Hin.
        apply elem_of_cons in Hin as [Heq|Hin];
          [injection Heq as _ -> ->; split; reflexivity|].
        destruct (snd (encryption.Decrypt decipher td secret));
          cbn [failure_log] in Hin.
        + apply list_elem_of_singleton in Hin. discriminate.
        + apply elem_of_nil in Hin. contradiction.
      - unfold trace in Hin. cbn [snd failure_log] in Hin.
        apply list_elem_of_singleton in Hin. discriminate. }
    split; [exact Hsuf|]. split; [|reflexivity].
    apply suffix_length in Hsuf. cbn [length]. lia.
Qed.

Lemma Decrypt_delimiter_never_verbatim_witness :
  DecipherCall "aes-cfb" (list_byte_of_string "kabc") "k"
  ∈ trace (Decrypt sample.aesOnly (list_byte_of_string "*kabc") "k")
  /\ list_byte_of_string "kabc" `suffix_of` list_byte_of_string "kabc".
Proof.
  assert (DecipherCall "aes-cfb" (list_byte_of_string "kabc") "k"
          ∈ trace (Decrypt sample.aesOnly (list_byte_of_string "*kabc") "k"))
    as Hin by apply list_elem_of_here.
  split; [exact Hin|].
  exact (proj1 (Decrypt_delimiter_never_verbatim sample.aesOnly
                  (list_byte_of_string "kabc") "k" "aes-cfb" "k"
                  (list_byte_of_string "kabc") Hin)).
Defined.

(** X15.  With no cipher registered for the configured algorithm,
    [EncryptJsonData] of a non-empty map fails at the first entry it
    visits: it returns an empty map and the unavailable-cipher error, logs
    once, and calls no cipher; the remaining entries are not visited. *)
Theorem EncryptJsonData_unregistered (s : Service) (secret key v : string)
    (rest : list (string * string)) :
  ciphers s !! configuredAlgorithm (settingsProvider s) = None ->
  EncryptJsonData s ((key, v) :: rest) secret
  = (∅,
     Some (UnavailableCipherError (configuredAlgorithm (settingsProvider s))),
     [LogError "Encryption failed"
        [("error",
          LError (UnavailableCipherError
                    (configuredAlgorithm (settingsProvider s))))]]).
Proof.
  intros Hc. unfold EncryptJsonData. cbn [EncryptJsonData_range].
  rewrite (Encrypt_unregistered s _ secret Hc). reflexivity.
Qed.

Lemma EncryptJsonData_unregistered_witness :
  (ciphers (sample.both "none")
     !! configuredAlgorithm (settingsProvider (sample.both "none")) = None)
  /\ value (EncryptJsonData (sample.both "none")
              [("a", "1"); ("b", "2")]%string "k")
     = (∅, Some (UnavailableCipherError "none")).
Proof.
  assert (ciphers (sample.both "none")
            !! configuredAlgorithm (settingsProvider (sample.both "none"))
          = None) as Hc by reflexivity.
  split; [exact Hc|].
  exact (f_equal fst
           (EncryptJsonData_unregistered (sample.both "none") "k" "a" "1"
              [("b", "2")]%string Hc)).
Defined.

End Legacy.
